(** * Reconstructor: a shallow embedding of the gap-filling pipeline

    The development follows the Python sources of the [reconstructor]
    package: [utils.py] (identifier sanitising), [_funcs.py] (draft model
    construction, the pFBA gap-filler and the model integrator) and
    [build.py] (the [reconstruct] driver).

    Python floats are IEEE binary64 numbers and are embedded as Rocq's
    primitive [float]; Python strings are embedded as [string] (the
    identifiers handled by the package are ASCII). *)

From Stdlib Require Import Floats ZArith Lia Bool List String Ascii.
From stdpp Require Import base gmap sets list strings.
Import ListNotations.

Local Open Scope string_scope.

(** ** Exceptions and fallible computations *)

Inductive exn : Type :=
  | FileNotFoundError
  | ValueError
  | KeyError (key : string)
  | UnboundLocalError
  | OptimizationError
  | SolverError.

Inductive result (A : Type) : Type :=
  | Ok (a : A)
  | Raise (e : exn).

Arguments Ok {A} a.
Arguments Raise {A} e.

#[global] Instance result_ret : MRet result := fun _ a => Ok a.

#[global] Instance result_bind : MBind result := fun _ _ k r =>
  match r with
  | Ok a => k a
  | Raise e => Raise e
  end.

(** ** [utils.py]: SBML identifiers *)

Module Utils.

Definition is_digit (c : ascii) : bool :=
  let n := nat_of_ascii c in (48 <=? n)%nat && (n <=? 57)%nat.

Definition is_letter (c : ascii) : bool :=
  let n := nat_of_ascii c in
  ((65 <=? n)%nat && (n <=? 90)%nat) || ((97 <=? n)%nat && (n <=? 122)%nat).

Definition is_underscore (c : ascii) : bool := Ascii.eqb c "_"%char.

(** The class [\w] on ASCII text.  Python's [\w] also takes letters and
    digits beyond ASCII, which a string of this development does not
    hold as characters: what is stated of identifiers that are not known
    to be made of word characters is stated of ASCII text
    ([Text.ascii_text]). *)
Definition is_word (c : ascii) : bool :=
  is_letter c || is_digit c || is_underscore c.

(** [\w*$]: a maximal run of word characters followed by the end of the
    string; Python's [$] also matches just before a final newline. *)
Fixpoint word_run_to_end (s : string) : bool :=
  match s with
  | EmptyString => true
  | String c rest =>
      if is_word c then word_run_to_end rest
      else String.eqb s (String "010"%char EmptyString)
  end.

(** [re.match(r"^[_a-zA-Z]\w*$", id_)] *)
Definition is_valid_sbml_id (id_ : string) : bool :=
  match id_ with
  | EmptyString => false
  | String c rest => (is_letter c || is_underscore c) && word_run_to_end rest
  end.

(** [re.sub(r"\W+", "_", s)]: every maximal run of non-word characters
    becomes one underscore; [in_run] records that the previous character
    already belonged to the run being replaced. *)
Fixpoint sub_nonword_runs (in_run : bool) (s : string) : string :=
  match s with
  | EmptyString => EmptyString
  | String c rest =>
      if is_word c then String c (sub_nonword_runs false rest)
      else if in_run then sub_nonword_runs true rest
      else String "_"%char (sub_nonword_runs true rest)
  end.

Definition sanitize_sbml_id (id_ : string) : string :=
  let id_ :=
    match id_ with
    | String c _ => if is_digit c then String "_"%char id_ else id_
    | EmptyString => id_
    end in
  sub_nonword_runs false id_.

End Utils.

(** ** [build.py]: parameter validation of [reconstruct] *)

Module Validation.

Local Open Scope float_scope.

(** The literal [0.01], spelled exactly as the binary64 value Python
    reads it as. *)
Definition default_min_frac : float := 0x1.47ae147ae147bp-7.
Definition default_max_frac : float := 0.5.

(** The two biomass objectives selected by the gram stain. *)
Definition select_objective (gram : string) : result string :=
  if String.eqb gram "positive" then Ok "biomass_GmPos"%string
  else if String.eqb gram "negative" then Ok "biomass_GmNeg"%string
  else Raise ValueError.

Inductive warning : Type :=
  | ImproperMinimum (given : float)
  | ImproperMaximum (given : float)
  | MaximumBelowMinimum (max_frac min_frac : float).

Record fractions : Type := Fractions {
  min_frac : float;
  max_frac : float;
  warnings : list warning
}.

(** Python's [x > y] on floats is [y < x]. *)
Definition improper (x : float) : bool := (x <=? 0) || (1 <? x).

(** Lines 119-134 of [build.py]; the emitted warnings are collected in
    order. *)
Definition check_fractions (min_frac0 max_frac0 : float) : fractions :=
  let '(min1, w1) :=
    if improper min_frac0 then (default_min_frac, [ImproperMinimum min_frac0])
    else (min_frac0, []) in
  let '(max1, w2) :=
    if improper max_frac0 then (default_max_frac, [ImproperMaximum max_frac0])
    else (max_frac0, []) in
  let '(min2, w3) :=
    if max1 <? min1 then (max1 * 0.5, [MaximumBelowMinimum max1 min1])
    else (min1, []) in
  Fractions min2 max1 (w1 ++ w2 ++ w3).

End Validation.

(** ** The part of the [cobra] model API that the package drives

    A [cobra.Model] owns an ordered, id-indexed list of reactions, the
    metabolites and genes they mention, and an optimisation problem: the
    reactions' flux variables with their bounds, the steady-state rows of
    the metabolites, further constraints handed directly to the solver, and
    an objective.  Used as a context manager ([with model:]), a model
    records an undo action for every change made through its own methods
    and replays them, last first, when the block is left. *)

Module Cobra.

Local Open Scope float_scope.

Record Metabolite : Type := {
  met_id : string;
  met_name : string;
  compartment : string
}.

Record Gene : Type := {
  gene_id : string;
  kegg_genes : option string   (* annotation["kegg.genes"] *)
}.

Record Reaction : Type := {
  rxn_id : string;
  rxn_name : string;
  rxn_metabolites : list (Metabolite * float);
  lower_bound : float;
  upper_bound : float;
  gene_reaction_rule : string;
  rxn_genes : list Gene
}.

Inductive direction : Type := Max | Min.

(** Each reaction contributes a forward and a reverse flux variable. *)
Inductive variable : Type :=
  | Forward (r : string)
  | Reverse (r : string).

Record Objective : Type := {
  obj_direction : direction;
  obj_coefficients : list (variable * float)
}.

(** [lb <= flux_expression(reaction) <= ub] *)
Record Constraint : Type := {
  con_reaction : string;
  con_lb : float;
  con_ub : float
}.

Inductive undo : Type :=
  | UndoRemove (r : Reaction)
  | UndoAdd (rxn_ids met_ids gene_ids : list string)
  | UndoBounds (r : string) (lb ub : float)
  | UndoObjective (o : Objective).

Record Model : Type := {
  reactions : list Reaction;
  metabolites : list Metabolite;
  genes : list Gene;
  constraints : list Constraint;
  objective : Objective;
  contexts : list (list undo)
}.

Definition set_reactions (rs : list Reaction) (m : Model) : Model :=
  {| reactions := rs; metabolites := metabolites m; genes := genes m;
     constraints := constraints m; objective := objective m;
     contexts := contexts m |}.

Definition set_metabolites (ms : list Metabolite) (m : Model) : Model :=
  {| reactions := reactions m; metabolites := ms; genes := genes m;
     constraints := constraints m; objective := objective m;
     contexts := contexts m |}.

Definition set_genes (gs : list Gene) (m : Model) : Model :=
  {| reactions := reactions m; metabolites := metabolites m; genes := gs;
     constraints := constraints m; objective := objective m;
     contexts := contexts m |}.

Definition set_constraints (cs : list Constraint) (m : Model) : Model :=
  {| reactions := reactions m; metabolites := metabolites m;
     genes := genes m; constraints := cs; objective := objective m;
     contexts := contexts m |}.

Definition set_objective (o : Objective) (m : Model) : Model :=
  {| reactions := reactions m; metabolites := metabolites m;
     genes := genes m; constraints := constraints m; objective := o;
     contexts := contexts m |}.

Definition set_contexts (cs : list (list undo)) (m : Model) : Model :=
  {| reactions := reactions m; metabolites := metabolites m;
     genes := genes m; constraints := constraints m;
     objective := objective m; contexts := cs |}.

(** [cobra.Model(model_id)]: an empty model maximising nothing. *)
Definition empty_model : Model :=
  {| reactions := []; metabolites := []; genes := []; constraints := [];
     objective := {| obj_direction := Max; obj_coefficients := [] |};
     contexts := [] |}.

Definition set_bounds (lb ub : float) (r : Reaction) : Reaction :=
  {| rxn_id := rxn_id r; rxn_name := rxn_name r;
     rxn_metabolites := rxn_metabolites r;
     lower_bound := lb; upper_bound := ub;
     gene_reaction_rule := gene_reaction_rule r;
     rxn_genes := rxn_genes r |}.

Definition set_name (n : string) (r : Reaction) : Reaction :=
  {| rxn_id := rxn_id r; rxn_name := n;
     rxn_metabolites := rxn_metabolites r;
     lower_bound := lower_bound r; upper_bound := upper_bound r;
     gene_reaction_rule := gene_reaction_rule r;
     rxn_genes := rxn_genes r |}.

Definition set_rule (rule : string) (gs : list Gene) (r : Reaction)
  : Reaction :=
  {| rxn_id := rxn_id r; rxn_name := rxn_name r;
     rxn_metabolites := rxn_metabolites r;
     lower_bound := lower_bound r; upper_bound := upper_bound r;
     gene_reaction_rule := rule;
     rxn_genes := gs |}.

(** *** Id-indexed lists ([DictList]) *)

Definition is_rxn (i : string) (r : Reaction) : bool :=
  String.eqb (rxn_id r) i.

Definition has_id (rs : list Reaction) (i : string) : bool :=
  existsb (is_rxn i) rs.

Definition get_by_id (rs : list Reaction) (i : string) : result Reaction :=
  match List.find (is_rxn i) rs with
  | Some r => Ok r
  | None => Raise (KeyError i)
  end.

Definition mem (i : string) (ids : list string) : bool :=
  existsb (String.eqb i) ids.

(** Replace the reaction carrying id [i] by [f] of it. *)
Definition update_rxn (i : string) (f : Reaction -> Reaction)
    (rs : list Reaction) : list Reaction :=
  List.map (fun r => if is_rxn i r then f r else r) rs.

(** Append the candidates whose key is not yet present, first come
    first served. *)
Fixpoint add_missing {A : Type} (key : A -> string) (have cands : list A)
  : list A :=
  match cands with
  | [] => have
  | c :: cands' =>
      if mem (key c) (List.map key have) then add_missing key have cands'
      else add_missing key (have ++ [c]) cands'
  end.

Fixpoint unique_ids (ids : list string) : bool :=
  match ids with
  | [] => true
  | i :: ids' => negb (mem i ids') && unique_ids ids'
  end.

(** *** Context manager

    [record u m] is [context(u)]: the undo action is pushed on the
    innermost open context, and dropped when no context is open. *)

Definition record (u : undo) (m : Model) : Model :=
  match contexts m with
  | [] => m
  | top :: rest => set_contexts ((u :: top) :: rest) m
  end.

Definition drop_ids {A : Type} (key : A -> string) (ids : list string)
    (l : list A) : list A :=
  List.filter (fun x => negb (mem (key x) ids)) l.

Definition apply_undo (u : undo) (m : Model) : Model :=
  match u with
  | UndoRemove r => set_reactions (reactions m ++ [r]) m
  | UndoAdd rids mids gids =>
      set_genes (drop_ids gene_id gids (genes m))
        (set_metabolites (drop_ids met_id mids (metabolites m))
           (set_reactions (drop_ids rxn_id rids (reactions m)) m))
  | UndoBounds i lb ub =>
      set_reactions (update_rxn i (set_bounds lb ub) (reactions m)) m
  | UndoObjective o => set_objective o m
  end.

(** [Model.__enter__] *)
Definition enter (m : Model) : Model := set_contexts ([] :: contexts m) m.

(** [Model.__exit__]: pop the innermost context and run its undo actions,
    the most recent one first. *)
Definition exit (m : Model) : Model :=
  match contexts m with
  | [] => m
  | top :: rest =>
      fold_left (fun m' u => apply_undo u m') top (set_contexts rest m)
  end.

(** *** Computations on a model that is mutated in place

    A computation receives the model, and returns its outcome together
    with the model as it stands when the computation returns or raises. *)

Definition tx (A : Type) : Type := Model -> result A * Model.

#[global] Instance tx_ret : MRet tx := fun _ a m => (Ok a, m).

#[global] Instance tx_bind : MBind tx := fun _ _ k c m =>
  match c m with
  | (Ok a, m') => k a m'
  | (Raise e, m') => (Raise e, m')
  end.

Definition lift {A : Type} (r : result A) : tx A := fun m => (r, m).

Definition modify (f : Model -> Model) : tx unit := fun m => (Ok tt, f m).

Definition get : tx Model := fun m => (Ok m, m).

(** [Model.__exit__] when the solver holds a constraint it has refused:
    the constraint stays in the solver's queue, every later update of the
    solver fails on it, and so does the first undo action that touches
    the solver.  The context is popped and nothing is undone. *)
Definition abandon (m : Model) : Model := set_contexts (tl (contexts m)) m.

(** [with model as universal: body]: the undo actions run whether the
    body returns or raises, except after a refusal by the solver, when
    they cannot run and the model stays as the body left it. *)
Definition with_context {A : Type} (body : tx A) : tx A := fun m =>
  match body (enter m) with
  | (Raise SolverError, m') => (Raise SolverError, abandon m')
  | (r, m') => (r, exit m')
  end.

(** *** Reactions *)

(** [Model.remove_reactions]: an id that is not in the model is skipped
    with a warning; metabolites and genes stay ([remove_orphans=False]). *)
Definition remove_reaction (i : string) (m : Model) : Model :=
  match List.find (is_rxn i) (reactions m) with
  | None => m
  | Some r =>
      record (UndoRemove r)
        (set_reactions
           (List.filter (fun r' => negb (is_rxn i r')) (reactions m)) m)
  end.

Definition remove_reactions (ids : list string) : tx unit :=
  modify (fun m => fold_left (fun m' i => remove_reaction i m') ids m).

Definition genes_of (rs : list Reaction) : list Gene :=
  concat (List.map rxn_genes rs).

Definition metabolites_of (rs : list Reaction) : list Metabolite :=
  concat (List.map (fun r => List.map fst (rxn_metabolites r)) rs).

Definition new_ids {A : Type} (key : A -> string) (old new : list A)
  : list string :=
  List.map key (skipn (length old) new).

(** [Model.add_reactions]: reactions whose id the model already has are
    ignored with a warning; the remaining ones must carry distinct ids;
    their metabolites and genes join the model unless one of that id is
    there already. *)
Definition add_reactions (rs : list Reaction) : tx unit := fun m =>
  let pruned :=
    List.filter (fun r => negb (has_id (reactions m) (rxn_id r))) rs in
  if unique_ids (List.map rxn_id pruned) then
    let mets := add_missing met_id (metabolites m) (metabolites_of pruned) in
    let gens := add_missing gene_id (genes m) (genes_of pruned) in
    (Ok tt,
     record
       (UndoAdd (List.map rxn_id pruned)
                (new_ids met_id (metabolites m) mets)
                (new_ids gene_id (genes m) gens))
       (set_genes gens
          (set_metabolites mets
             (set_reactions (reactions m ++ pruned) m))))
  else (Raise ValueError, m).

(** [reaction.lower_bound = value]: the setter checks the new pair of
    bounds and raises [ValueError] when the value is above the reaction's
    upper bound; the upper bound is never moved. *)
Definition with_lower_bound (value : float) (r : Reaction) : Reaction :=
  set_bounds value (upper_bound r) r.

Definition set_lower_bound (i : string) (value : float) : tx unit :=
  fun m =>
  match get_by_id (reactions m) i with
  | Raise e => (Raise e, m)
  | Ok r =>
      if upper_bound r <? value then (Raise ValueError, m)
      else
        (Ok tt,
         record (UndoBounds i (lower_bound r) (upper_bound r))
           (set_reactions
              (update_rxn i (with_lower_bound value) (reactions m)) m))
  end.

(** [reaction.bounds = (lb, ub)] *)
Definition assign_bounds (i : string) (lb ub : float) : tx unit :=
  fun m =>
  match get_by_id (reactions m) i with
  | Raise e => (Raise e, m)
  | Ok r =>
      if ub <? lb then (Raise ValueError, m)
      else
        (Ok tt,
         record (UndoBounds i (lower_bound r) (upper_bound r))
           (set_reactions (update_rxn i (set_bounds lb ub) (reactions m)) m))
  end.

(** *** Objective and solver *)

(** [model.objective = value]: the previous objective is what the
    context restores. *)
Definition assign_objective (o : Objective) : tx unit :=
  modify (fun m => record (UndoObjective (objective m)) (set_objective o m)).

(** The objective made of one reaction keeps the current direction. *)
Definition reaction_objective (d : direction) (i : string) : Objective :=
  {| obj_direction := d;
     obj_coefficients := [(Forward i, 1); (Reverse i, -1)] |}.

(** [model.objective = reaction] *)
Definition assign_objective_reaction (r : Reaction) : tx unit := fun m =>
  assign_objective
    (reaction_objective (obj_direction (objective m)) (rxn_id r)) m.

(** [model.objective = n] for an integer [n]: the reaction at that
    index. *)
Definition assign_objective_index (n : nat) : tx unit := fun m =>
  match nth_error (reactions m) n with
  | Some r => assign_objective_reaction r m
  | None => (Raise ValueError, m)
  end.

(** [model.objective.set_linear_coefficients(d)] acts on the objective
    itself and is not seen by the context. *)
Definition set_linear_coefficients (d : list (variable * float))
  : tx unit :=
  modify (fun m =>
    set_objective
      {| obj_direction := obj_direction (objective m);
         obj_coefficients := d |} m).

(** [model.problem.Constraint(expr, lb=.., ub=..)] refuses an upper
    bound below the lower bound. *)
Definition make_constraint (i : string) (lb ub : float)
  : result Constraint :=
  if ub <? lb then Raise ValueError
  else Ok {| con_reaction := i; con_lb := lb; con_ub := ub |}.

Inductive status : Type :=
  | OPTIMAL | FEASIBLE | SUBOPTIMAL | NUMERIC | ITERATION_LIMIT
  | TIME_LIMIT | INFEASIBLE | UNBOUNDED | UNDEFINED.

(** What the solver leaves behind after a run. *)
Record outcome : Type := {
  out_status : status;
  objective_value : float;
  flux : string -> float
}.

(** The linear-programming back end is not part of the package: [solve]
    is its answer to the problem a model currently poses, [admits] tells
    whether it takes a constraint with the given bounds. *)
Record backend : Type := {
  solve : Model -> outcome;
  admits : Constraint -> bool
}.

Record Solution : Type := {
  sol_status : status;
  fluxes : list (string * float)
}.

Definition has_primals (s : status) : bool :=
  match s with
  | NUMERIC | FEASIBLE | INFEASIBLE | SUBOPTIMAL | ITERATION_LIMIT
  | TIME_LIMIT => true
  | _ => false
  end.

(** *** What it means for fluxes to solve a model's problem *)

Definition within (lb v ub : float) : bool := (lb <=? v) && (v <=? ub).

(** The net production of metabolite [i] under the fluxes [v]. *)
Definition net_production (v : string -> float) (rs : list Reaction)
    (i : string) : float :=
  fold_left
    (fun acc r =>
       fold_left
         (fun acc' e =>
            if String.eqb (met_id (fst e)) i
            then acc' + snd e * v (rxn_id r) else acc')
         (rxn_metabolites r) acc)
    rs 0.

(** Bounds, solver constraints and steady state. *)
Definition feasible (m : Model) (v : string -> float) : bool :=
  forallb
    (fun r => within (lower_bound r) (v (rxn_id r)) (upper_bound r))
    (reactions m)
  && forallb
       (fun c => within (con_lb c) (v (con_reaction c)) (con_ub c))
       (constraints m)
  && forallb
       (fun x => net_production v (reactions m) (met_id x) =? 0)
       (metabolites m).

Section Solver.

Variable solver : backend.

(** [model.solver.add(c)] followed by [model.solver.update()]: the
    constraint goes straight to the solver and no undo action is
    recorded.  A constraint that the solver refuses is not among its
    constraints; what the refusal does to the model is seen when the
    context is left ([with_context]). *)
Definition solver_add (c : Constraint) : tx unit := fun m =>
  if admits solver c then
    (Ok tt, set_constraints (constraints m ++ [c]) m)
  else (Raise SolverError, m).

(** [model.slim_optimize()]: the objective value, or NaN when the
    solver does not report an optimum. *)
Definition slim_value (m : Model) : float :=
  let o := solve solver m in
  match out_status o with
  | OPTIMAL => objective_value o
  | _ => nan
  end.

Definition slim_optimize : tx float := fun m => (Ok (slim_value m), m).

(** The solution object read off the solver: one flux per reaction of
    the model, in the model's order. *)
Definition solution_of (m : Model) : Solution :=
  let o := solve solver m in
  {| sol_status := out_status o;
     fluxes := List.map (fun r => (rxn_id r, flux o (rxn_id r)))
                 (reactions m) |}.

(** [model.optimize()] with its default [raise_error=False]: a status
    that still has primal values only triggers a warning. *)
Definition optimize : tx Solution := fun m =>
  match out_status (solve solver m) with
  | OPTIMAL => (Ok (solution_of m), m)
  | s => if has_primals s then (Ok (solution_of m), m)
         else (Raise OptimizationError, m)
  end.

End Solver.

(** *** Gene-reaction rules and boundary reactions *)

Definition gene_object (gs : list Gene) (g : string) : Gene :=
  match List.find (fun x => String.eqb (gene_id x) g) gs with
  | Some x => x
  | None => {| gene_id := g; kegg_genes := None |}
  end.

Section Rules.

(** cobra's rule parser, which is not part of the package: the gene ids
    it reads in a rule text, or nothing when it rejects the text. *)
Variable gpr_genes : string -> option (list string).

(** [reaction.gene_reaction_rule = rule] on a reaction of the model: the
    text is parsed; the genes it names are bound to the model's genes of
    that id, and created in the model when it has none.  A text that the
    parser rejects only triggers a warning, and leaves the reaction with
    the empty rule and no gene.  The change is not undone by a context. *)
Definition assign_gene_reaction_rule (i : string) (rule : string)
  : tx unit := fun m =>
  match get_by_id (reactions m) i with
  | Raise e => (Raise e, m)
  | Ok _ =>
      match gpr_genes rule with
      | None =>
          (Ok tt,
           set_reactions
             (update_rxn i (set_rule EmptyString []) (reactions m)) m)
      | Some named =>
          let gens :=
            add_missing gene_id (genes m)
              (List.map (fun g => {| gene_id := g; kegg_genes := None |})
                 named) in
          let bound := List.map (gene_object gens) named in
          (Ok tt,
           set_genes gens
             (set_reactions
                (update_rxn i (set_rule rule bound) (reactions m)) m))
      end
  end.

End Rules.

Section Boundary.

(** cobra's guess of the model's external compartment, which raises
    when the compartment names leave it undecided. *)
Variable find_external_compartment : Model -> result string.

(** [model.add_boundary(cpd, type="exchange", reaction_id=i, lb=..,
    ub=..)] *)
Definition add_boundary (cpd : Metabolite) (i : string) (lb ub : float)
  : tx unit := fun m =>
  match find_external_compartment m with
  | Raise e => (Raise e, m)
  | Ok external =>
      if negb (String.eqb (compartment cpd) external) then
        (Raise ValueError, m)
      else if has_id (reactions m) i then (Raise ValueError, m)
      else
        add_reactions
          [ {| rxn_id := i;
               rxn_name := met_name cpd ++ " exchange";
               rxn_metabolites := [(cpd, -1)];
               lower_bound := lb; upper_bound := ub;
               gene_reaction_rule := "";
               rxn_genes := [] |} ] m
  end.

End Boundary.

End Cobra.

(** ** [medium.py]: the registered growth media *)

Module Medium.

Definition RICH : list string :=
  [
    "cpd00001_e"; "cpd00035_e"; "cpd00041_e"; "cpd00023_e"; "cpd00119_e";
    "cpd00107_e"; "cpd00060_e"; "cpd00161_e"; "cpd00069_e"; "cpd00084_e";
    "cpd00033_e"; "cpd00322_e"; "cpd00066_e"; "cpd00054_e"; "cpd00065_e";
    "cpd00156_e"; "cpd00220_e"; "cpd00644_e"; "cpd00393_e"; "cpd00133_e";
    "cpd00263_e"; "cpd00104_e"; "cpd00149_e"; "cpd00971_e"; "cpd00099_e";
    "cpd00205_e"; "cpd00009_e"; "cpd00063_e"; "cpd00254_e"; "cpd10515_e";
    "cpd00030_e"; "cpd00242_e"; "cpd00226_e"; "cpd01242_e"; "cpd00307_e";
    "cpd00092_e"; "cpd00117_e"; "cpd00067_e"; "cpd00567_e"; "cpd00132_e";
    "cpd00210_e"; "cpd00320_e"; "cpd03279_e"; "cpd00246_e"; "cpd00311_e";
    "cpd00367_e"; "cpd00277_e"; "cpd00182_e"; "cpd00654_e"; "cpd00412_e";
    "cpd00438_e"; "cpd00274_e"; "cpd00186_e"; "cpd00637_e"; "cpd00105_e";
    "cpd00305_e"; "cpd00309_e"; "cpd00098_e"; "cpd00207_e"; "cpd00082_e";
    "cpd00129_e"
  ].

Definition COMPLETE : list string :=
  [
    "cpd00035_e"; "cpd00051_e"; "cpd00132_e"; "cpd00041_e"; "cpd00084_e";
    "cpd00053_e"; "cpd00023_e"; "cpd00033_e"; "cpd00119_e"; "cpd00322_e";
    "cpd00107_e"; "cpd00039_e"; "cpd00060_e"; "cpd00066_e"; "cpd00129_e";
    "cpd00054_e"; "cpd00161_e"; "cpd00065_e"; "cpd00069_e"; "cpd00156_e";
    "cpd00027_e"; "cpd00149_e"; "cpd00030_e"; "cpd00254_e"; "cpd00971_e";
    "cpd00063_e"; "cpd10515_e"; "cpd00205_e"; "cpd00099_e"
  ].

Definition MINIMAL : list string :=
  [
    "cpd00001_e"; "cpd00065_e"; "cpd00060_e"; "cpd00322_e"; "cpd00129_e";
    "cpd00156_e"; "cpd00107_e"; "cpd00084_e"; "cpd00149_e"; "cpd00099_e";
    "cpd10515_e"; "cpd00030_e"; "cpd00254_e"; "cpd00063_e"; "cpd00205_e";
    "cpd00009_e"; "cpd00971_e"; "cpd00242_e"; "cpd00104_e"; "cpd00644_e";
    "cpd00263_e"; "cpd00082_e"
  ].

(** [get_medium]: the registry holds the three media above. *)
Definition get_medium (name : string) : result (list string) :=
  if String.eqb name "rich" then Ok RICH
  else if String.eqb name "complete" then Ok COMPLETE
  else if String.eqb name "minimal" then Ok MINIMAL
  else Raise (KeyError name).

End Medium.

(** ** [_funcs.py] *)

Module Funcs.

Import Cobra.
Local Open Scope float_scope.

(** [for x in xs: body x] *)
Fixpoint for_each {A : Type} (xs : list A) (body : A -> tx unit)
  : tx unit :=
  match xs with
  | [] => mret tt
  | x :: xs' => body x ;; for_each xs' body
  end.

(** *** [create_model] *)

Section CreateModel.

Variable gpr_genes : string -> option (list string).

(** [" or ".join(g.id for g in genes)] *)
Definition or_rule (gs : list Gene) : string :=
  String.concat " or " (List.map gene_id gs).

Definition add_draft_reaction (universal : Model)
    (entry : string * list Gene) : tx unit :=
  let '(rxn_id, gene_lst) := entry in
  if has_id (reactions universal) rxn_id then
    rxn ← lift (get_by_id (reactions universal) rxn_id);
    add_reactions [rxn] ;;
    assign_gene_reaction_rule gpr_genes rxn_id (or_rule gene_lst)
  else mret tt.

(** [rxn_db] is a dictionary in insertion order: its keys are
    distinct. *)
Definition create_model (rxn_db : list (string * list Gene))
    (universal : Model) : result Model :=
  let new_model :=
    set_genes
      (add_missing gene_id [] (concat (List.map snd rxn_db)))
      empty_model in
  match for_each rxn_db (add_draft_reaction universal) new_model with
  | (Ok _, m) => Ok m
  | (Raise e, _) => Raise e
  end.

End CreateModel.

(** *** [find_reactions] *)

(** The activity threshold [1e-6], spelled exactly. *)
Definition activity_threshold : float := 0x1.0c6f7a0b5ed8dp-20.

(** The objective reaction is set aside unless the input was an SBML
    model ([file_type == 3]). *)
Definition skipped (obj : string) (file_type : Z) (r : Reaction) : bool :=
  String.eqb (rxn_id r) obj && negb (file_type =? 3)%Z.

Definition orig_rxn_ids (model : Model) (obj : string) (file_type : Z)
  : list string :=
  List.map rxn_id
    (List.filter (fun r => negb (skipped obj file_type r))
       (reactions model)).

Definition remove_rxns (model universal : Model) (obj : string)
    (file_type : Z) : list string :=
  List.filter (has_id (reactions universal))
    (orig_rxn_ids model obj file_type).

Definition add_rxns (model : Model) (obj : string) (file_type : Z)
  : list Reaction :=
  List.filter
    (fun x => negb (String.eqb (rxn_id x) obj) || (file_type =? 3)%Z)
    (reactions model).

Definition set_task_bounds (tasks : option (list string))
    (fraction : float) : tx unit :=
  match tasks with
  | None => mret tt
  | Some ts =>
      for_each ts (fun rxn =>
        universal ← get;
        if has_id (reactions universal) rxn then
          set_lower_bound rxn fraction
        else mret tt)
  end.

(** The band put on the objective flux around the optimum
    [prev_obj_val]. *)
Definition prev_obj_constraint (obj : string) (prev_obj_val : float)
    (fraction max_fraction : float) (step : Z) : result Constraint :=
  if (step =? 1)%Z then
    make_constraint obj (prev_obj_val * fraction)
      (prev_obj_val * max_fraction)
  else if (step =? 2)%Z then
    make_constraint obj (prev_obj_val * max_fraction) prev_obj_val
  else Raise UnboundLocalError.

Definition weight (orig : list string) (r : Reaction) : float :=
  if mem (rxn_id r) orig then 0 else 1.

Definition coefficientDict (orig : list string) (rs : list Reaction)
  : list (variable * float) :=
  concat
    (List.map
       (fun r => [(Forward (rxn_id r), weight orig r);
                  (Reverse (rxn_id r), weight orig r)])
       rs).

Definition pfba_objective : Objective :=
  {| obj_direction := Min; obj_coefficients := [] |}.

Definition active_rxns (fl : list (string * float)) : list string :=
  List.map fst
    (List.filter (fun e => activity_threshold <? abs (snd e)) fl).

Section FindReactions.

Variable solver : backend.

(** Lines 161-186: the model's reactions replace their namesakes in
    the bag, and the task reactions are forced to carry flux. *)
Definition merge_model (model : Model) (tasks : option (list string))
    (obj : string) (fraction : float) (file_type : Z) : tx unit :=
  universal ← get;
  remove_reactions (remove_rxns model universal obj file_type) ;;
  add_reactions (add_rxns model obj file_type) ;;
  set_task_bounds tasks fraction.

(** Lines 190-226: the objective band around the optimum, then the
    pFBA objective. *)
Definition pfba_problem (model : Model) (obj : string)
    (fraction max_fraction : float) (step file_type : Z) : tx unit :=
  universal ← get;
  objective_rxn ← lift (get_by_id (reactions universal) obj);
  assign_objective_reaction objective_rxn ;;
  prev_obj_val ← slim_optimize solver;
  constraint ←
    lift (prev_obj_constraint obj prev_obj_val fraction max_fraction
            step);
  solver_add solver constraint ;;
  universal ← get;
  assign_objective_index 0 ;;
  assign_objective pfba_objective ;;
  set_linear_coefficients
    (coefficientDict (orig_rxn_ids model obj file_type)
       (reactions universal)).

(** The block run under [with reaction_bag as universal]. *)
Definition find_reactions_body (model : Model)
    (tasks : option (list string)) (obj : string)
    (fraction max_fraction : float) (step file_type : Z)
  : tx Solution :=
  merge_model model tasks obj fraction file_type ;;
  pfba_problem model obj fraction max_fraction step file_type ;;
  optimize solver.

(** [find_reactions model reaction_bag ...] as a computation on the
    reaction bag, which it mutates in place.  The progress bar written
    to the terminal is left out. *)
Definition find_reactions (model : Model)
    (tasks : option (list string)) (obj : string)
    (fraction max_fraction : float) (step file_type : Z)
  : tx (gset string) :=
  solution ←
    with_context
      (find_reactions_body model tasks obj fraction max_fraction step
         file_type);
  mret
    ((list_to_set (active_rxns (fluxes solution)) : gset string)
       ∖ list_to_set (orig_rxn_ids model obj file_type)).

End FindReactions.

(** *** [gapfill_model] *)

Fixpoint collect {A B : Type} (f : A -> result B) (xs : list A)
  : result (list B) :=
  match xs with
  | [] => Ok []
  | x :: xs' => y ← f x; ys ← collect f xs'; mret (y :: ys)
  end.

(** The reactions copied out of the universal bag. *)
Definition new_rxns (universal : Model) (new_rxn_ids : list string)
    (obj : string) (step : Z) : result (list Reaction) :=
  first ←
    (if (step =? 1)%Z then
       r ← get_by_id (reactions universal) obj; mret [r]
     else mret []);
  others ←
    collect (get_by_id (reactions universal))
      (List.filter (fun rxn => negb (String.eqb rxn obj)) new_rxn_ids);
  mret (first ++ others)%list.

Definition max_objective (obj : string) : Objective :=
  reaction_objective Max obj.

(** [model.reactions.get_by_id(i).name = n] *)
Definition assign_name (i n : string) : tx unit := fun m =>
  match get_by_id (reactions m) i with
  | Raise e => (Raise e, m)
  | Ok _ => (Ok tt, set_reactions (update_rxn i (set_name n) (reactions m)) m)
  end.

Section GapfillModel.

Variable find_external_compartment : Model -> result string.

Definition add_exchange (cpd : Metabolite) : tx unit :=
  if negb (String.eqb (compartment cpd) "extracellular") then mret tt
  else
    let exch_id := "EX_" ++ met_id cpd in
    model ← get;
    if has_id (reactions model) exch_id then mret tt
    else
      add_boundary find_external_compartment cpd exch_id (-1000) 1000 ;;
      assign_name exch_id (met_name cpd ++ " exchange").

(** [gapfill_model model universal new_rxn_ids obj step] as a
    computation on [model], which it mutates and returns. *)
Definition gapfill_model (universal : Model) (new_rxn_ids : list string)
    (obj : string) (step : Z) : tx unit :=
  rxns ← lift (new_rxns universal new_rxn_ids obj step);
  add_reactions rxns ;;
  model ← get;
  _ ← lift (get_by_id (reactions model) obj);
  assign_objective (max_objective obj) ;;
  model ← get;
  for_each (metabolites model) add_exchange.

End GapfillModel.

(** *** [set_base_inputs] *)

Definition base_tasks : list string :=
  List.map (fun cpd => "EX_" ++ cpd) Medium.COMPLETE.

(** The literal [-0.01]. *)
Definition base_uptake : float := - 0x1.47ae147ae147bp-7.

Definition set_base_inputs (universal : Model) : tx unit :=
  model ← get;
  rxns ←
    lift (collect (get_by_id (reactions universal))
            (List.filter (fun exch => negb (has_id (reactions model) exch))
               base_tasks));
  add_reactions rxns ;;
  for_each base_tasks (fun exch => assign_bounds exch (-1000) base_uptake).

(** *** [add_annotation] and [check_model]

    [add_annotation] only writes annotation entries, which the embedding
    does not carry, and every lookup it makes under [obj="built"] is
    guarded; [check_model] solves the final model and prints a report. *)

Definition add_annotation (model : Model) : Model := model.

Definition check_model (solver : backend) : tx float :=
  slim_optimize solver.

End Funcs.

(** ** [build.py]: [reconstruct] *)

Module Build.

Import Cobra Funcs Validation.
Local Open Scope float_scope.

Inductive FileType : Type := FASTA | BLAST_OUTPUT | SBML.

(** [FileType(file_type)] *)
Definition FileType_of (file_type : Z) : result FileType :=
  if (file_type =? 1)%Z then Ok FASTA
  else if (file_type =? 2)%Z then Ok BLAST_OUTPUT
  else if (file_type =? 3)%Z then Ok SBML
  else Raise ValueError.

Inductive media_spec : Type :=
  | Named (name : string)
  | Compounds (cpds : list string).

Definition resolve_media (media : media_spec) : result (list string) :=
  match media with
  | Named name => Medium.get_medium name
  | Compounds cpds => Ok cpds
  end.

(** What [reconstruct] obtains from outside the package: the file
    system, the bundled resources, the BLAST run and its translation to
    reactions, the SBML reader, and the cobra and solver routines whose
    code is not part of the package. *)
Record world : Type := {
  input_exists : bool;
  universal_model : Model;
  draft_rxns : list (string * list Gene);
  sbml_model : result Model;
  sbml_objective : string;
  assign_medium : list string -> tx unit;
  exchange_ids : Model -> result (list string);
  find_external_compartment : Model -> result string;
  gpr_genes : string -> option (list string);
  solver : backend
}.

(** Run a computation on a model; an exception drops the model. *)
Definition run {A : Type} (c : tx A) (m : Model) : result (A * Model) :=
  match c m with
  | (Ok a, m') => Ok (a, m')
  | (Raise e, _) => Raise e
  end.

(** The model with every flux bound and the undo history blanked: what is
    left is all that cobra's classification of boundary reactions reads
    (ids, stoichiometry, compartments). *)
Definition forget_bounds (m : Model) : Model :=
  set_contexts [] (set_reactions (List.map (set_bounds 0 0) (reactions m)) m).

(** What the loop of lines 228-229 does to one reaction. *)
Definition rebound (ids : list string) (lb ub : float) (r : Reaction)
  : Reaction :=
  if mem (rxn_id r) ids then set_bounds lb ub r else r.

Definition exchange_bounds (open_exchanges : bool) : float * float :=
  if open_exchanges then (-1000, 1000) else (0, 0).

(** Lines 227-229: every exchange of the final model gets the same
    bounds. *)
Definition finalize_bounds (w : world) (open_exchanges : bool)
    (final_model : Model) : result Model :=
  exchanges ← exchange_ids w final_model;
  let '(lb, ub) := exchange_bounds open_exchanges in
  '(_, m) ← run (for_each exchanges (fun exch => assign_bounds exch lb ub))
              final_model;
  mret m.

Definition medium_ids (universal : Model) (media : list string)
  : list string :=
  List.filter (has_id (reactions universal))
    (List.map (fun cpd => "EX_" ++ cpd) media).

(** Lines 179-222: the two rounds of gap-filling. *)
Definition gapfill_rounds (w : world) (ftype : FileType) (file_type : Z)
    (media : list string) (tasks : option (list string))
    (universal_obj : string) (min_frac max_frac : float)
    (draft_model : Model) : result Model :=
  let fec := find_external_compartment w in
  '(_, universal) ←
    run (assign_medium w (medium_ids (universal_model w) media))
      (universal_model w);
  '(new_reactions, universal) ←
    run (find_reactions (solver w) draft_model tasks universal_obj
           min_frac max_frac 1 file_type) universal;
  '(_, filled_model) ←
    run (gapfill_model fec universal (elements new_reactions)
           universal_obj 1) draft_model;
  match ftype with
  | SBML => mret (add_annotation filled_model)
  | _ =>
      '(_, filled_model) ← run (set_base_inputs universal) filled_model;
      '(media_reactions, universal) ←
        run (find_reactions (solver w) filled_model tasks universal_obj
               min_frac max_frac 2 file_type) universal;
      '(_, final_model) ←
        run (gapfill_model fec universal (elements media_reactions)
               universal_obj 2) filled_model;
      mret (add_annotation final_model)
  end.

(** Lines 147-176: the draft model, and the objective it is gap-filled
    for. *)
Definition draft_stage (w : world) (ftype : FileType)
    (universal_obj : string) : result (Model * string) :=
  match ftype with
  | SBML => m ← sbml_model w; mret (m, sbml_objective w)
  | _ =>
      m ← create_model (gpr_genes w) (draft_rxns w) (universal_model w);
      mret (m, universal_obj)
  end.

(** Lines 224-234: the exchange bounds and the final check. *)
Definition finish_model (w : world) (open_exchanges : bool)
    (final_model : Model) : result Model :=
  final_model ← finalize_bounds w open_exchanges final_model;
  '(_, final_model) ← run (check_model (solver w)) final_model;
  mret final_model.

(** Lines 136-234: the stages that follow the validation of the
    parameters. *)
Definition build_stages (w : world) (ftype : FileType) (file_type : Z)
    (media : media_spec) (tasks : option (list string))
    (universal_obj : string) (min_frac max_frac : float)
    (gapfill open_exchanges : bool) : result Model :=
  media ← resolve_media media;
  '(draft_model, universal_obj) ← draft_stage w ftype universal_obj;
  final_model ←
    (if gapfill then
       gapfill_rounds w ftype file_type media tasks universal_obj
         min_frac max_frac draft_model
     else mret (add_annotation draft_model));
  finish_model w open_exchanges final_model.

Definition reconstruct (w : world) (file_type : Z) (media : media_spec)
    (tasks : option (list string)) (min_frac0 max_frac0 : float)
    (gram : string) (gapfill open_exchanges : bool) : result Model :=
  if negb (input_exists w) then Raise FileNotFoundError
  else
    ftype ← FileType_of file_type;
    universal_obj ← select_objective gram;
    let fr := check_fractions min_frac0 max_frac0 in
    build_stages w ftype file_type media tasks universal_obj
      (min_frac fr) (max_frac fr) gapfill open_exchanges.

End Build.

(** ** [_funcs.py]: BLAST hits and their translation to reactions *)

Module Hits.

Import Cobra Funcs.

(** The ASCII characters that [str.split()] treats as white space: tab,
    line feed, vertical tab, form feed, carriage return, the four
    separators 0x1c-0x1f and the space.  Python also splits at white
    space beyond ASCII (the no-break space, say): the fields of a line
    are those of Python for ASCII text ([Text.ascii_text]). *)
Definition is_space (c : ascii) : bool :=
  let n := nat_of_ascii c in
  ((9 <=? n)%nat && (n <=? 13)%nat) || ((28 <=? n)%nat && (n <=? 32)%nat).

(** [s.split()]: the maximal runs of characters that are not white
    space; [cur] is the run being read. *)
Fixpoint split_aux (cur s : string) : list string :=
  match s with
  | EmptyString => if String.eqb cur EmptyString then [] else [cur]
  | String c rest =>
      if is_space c then
        if String.eqb cur EmptyString then split_aux EmptyString rest
        else cur :: split_aux EmptyString rest
      else split_aux (cur ++ String c EmptyString) rest
  end.

Definition str_split (s : string) : list string := split_aux EmptyString s.

(** One turn of the loop of [read_blast]: unpacking
    [query_id, kegg_id, *_ = line.split()] needs two fields. *)
Definition read_hit (line : string) : result Gene :=
  match str_split line with
  | query_id :: kegg_id :: _ =>
      Ok {| gene_id := Utils.sanitize_sbml_id query_id;
            kegg_genes := Some kegg_id |}
  | _ => Raise ValueError
  end.

(** [read_blast], on the lines of the file. *)
Definition read_blast (lines : list string) : result (list Gene) :=
  collect read_hit lines.

(** [gene.split(":")[0]] *)
Fixpoint before_colon (gene : string) : string :=
  match gene with
  | EmptyString => EmptyString
  | String c rest =>
      if Ascii.eqb c ":"%char then EmptyString
      else String c (before_colon rest)
  end.

Definition _get_org_rxns (gene_modelseed : gmap string (list string))
    (organism : string) : gset string :=
  list_to_set
    (List.filter (fun gene => String.eqb (before_colon gene) organism)
       (List.map fst (map_to_list gene_modelseed))).

(** [gene.annotation["kegg.genes"]] *)
Definition annotation_kegg (gene : Gene) : result string :=
  match kegg_genes gene with
  | Some kegg => Ok kegg
  | None => Raise (KeyError "kegg.genes")
  end.

(** [rxn_db[rxn].append(gene)] on a [defaultdict(list)]: a new key goes
    to the end of the dictionary. *)
Fixpoint rxn_db_append (rxn : string) (gene : Gene)
    (rxn_db : list (string * list Gene)) : list (string * list Gene) :=
  match rxn_db with
  | [] => [(rxn, [gene])]
  | (k, gs) :: rxn_db' =>
      if String.eqb k rxn then (k, (gs ++ [gene])%list) :: rxn_db'
      else (k, gs) :: rxn_db_append rxn gene rxn_db'
  end.

(** [rxn_db[rxn]], which is the empty list for a key not yet there. *)
Definition rxn_db_get (rxn : string) (rxn_db : list (string * list Gene))
  : list Gene :=
  match List.find (fun e => String.eqb (fst e) rxn) rxn_db with
  | Some e => snd e
  | None => []
  end.

(** [for rxn in gene_modelseed.get(kegg, []):
       rxn_db[rxn + "_c"].append(gene)] *)
Definition add_gene (gene_modelseed : gmap string (list string))
    (kegg : string) (gene : Gene) (rxn_db : list (string * list Gene))
  : list (string * list Gene) :=
  fold_left (fun db rxn => rxn_db_append (rxn ++ "_c") gene db)
    (default [] (gene_modelseed !! kegg)) rxn_db.

Fixpoint add_hits (gene_modelseed : gmap string (list string))
    (kegg_hits : list Gene) (rxn_db : list (string * list Gene))
  : result (list (string * list Gene)) :=
  match kegg_hits with
  | [] => Ok rxn_db
  | gene :: kegg_hits' =>
      kegg ← annotation_kegg gene;
      add_hits gene_modelseed kegg_hits'
        (add_gene gene_modelseed kegg gene rxn_db)
  end.

(** [cobra.Gene(kegg_gene)] with its annotation. *)
Definition org_gene (kegg_gene : string) : Gene :=
  {| gene_id := kegg_gene; kegg_genes := Some kegg_gene |}.

Section GenesToRxns.

(** The order in which Python walks a set of strings, which the language
    leaves open. *)
Variable set_order : gset string -> list string.

Definition genes_to_rxns (kegg_hits : list Gene)
    (gene_modelseed : gmap string (list string))
    (organism : option string) : result (list (string * list Gene)) :=
  org_genes ←
    match organism with
    | None => Ok (∅ : gset string)
    | Some organism =>
        blasted_genes ← collect annotation_kegg kegg_hits;
        mret (_get_org_rxns gene_modelseed organism
                ∖ list_to_set blasted_genes)
    end;
  rxn_db ← add_hits gene_modelseed kegg_hits [];
  mret
    (fold_left
       (fun db kegg_gene =>
          add_gene gene_modelseed kegg_gene (org_gene kegg_gene) db)
       (set_order org_genes) rxn_db).

End GenesToRxns.

(** A table as a Python dictionary holds it: one entry per key, and no
    key without a gene. *)
Definition wf (rxn_db : list (string * list Gene)) : Prop :=
  NoDup (List.map fst rxn_db) /\ Forall (fun e => snd e <> []) rxn_db.

End Hits.

(** ** A two-reaction reference network used in the worked examples *)

Module Examples.

Import Cobra Funcs Build.
Local Open Scope float_scope.

Definition cpd_A : Metabolite :=
  {| met_id := "cpd_A_c"; met_name := "A"; compartment := "cytosol" |}.

(** [-> A], at most 1000 units. *)
Definition uptake : Reaction :=
  {| rxn_id := "rxn_uptake_c"; rxn_name := "uptake of A";
     rxn_metabolites := [(cpd_A, 1)];
     lower_bound := 0; upper_bound := 1000;
     gene_reaction_rule := ""; rxn_genes := [] |}.

(** [A ->], between [lb] and 10 units. *)
Definition biomass (lb : float) : Reaction :=
  {| rxn_id := "biomass_GmPos"; rxn_name := "biomass";
     rxn_metabolites := [(cpd_A, -1)];
     lower_bound := lb; upper_bound := 10;
     gene_reaction_rule := ""; rxn_genes := [] |}.

Definition bag (lb : float) : Model :=
  {| reactions := [uptake; biomass lb]; metabolites := [cpd_A];
     genes := []; constraints := [];
     objective := {| obj_direction := Max; obj_coefficients := [] |};
     contexts := [] |}.

(** A draft model that already owns the uptake reaction. *)
Definition draft : Model :=
  {| reactions := [uptake]; metabolites := [cpd_A]; genes := [];
     constraints := [];
     objective := {| obj_direction := Max; obj_coefficients := [] |};
     contexts := [] |}.

(** The value of a linear objective when every reaction runs forward at
    rate [v]. *)
Definition forward_value (o : Objective) (v : float) : float :=
  fold_left
    (fun acc e =>
       match fst e with
       | Forward _ => acc + snd e * v
       | Reverse _ => acc
       end)
    (obj_coefficients o) 0.

(** In a network made of [uptake] and [biomass] both reactions run at
    the same rate in a steady state, so a flux distribution is one rate.
    The rate may not exceed the upper bound of any reaction or solver
    constraint, nor fall below any lower bound. *)
Definition upper_limit (m : Model) : float :=
  fold_left (fun acc c => if con_ub c <? acc then con_ub c else acc)
    (constraints m)
    (fold_left
       (fun acc r => if upper_bound r <? acc then upper_bound r else acc)
       (reactions m) infinity).

Definition lower_limit (m : Model) : float :=
  fold_left (fun acc c => if acc <? con_lb c then con_lb c else acc)
    (constraints m)
    (fold_left
       (fun acc r => if acc <? lower_bound r then lower_bound r else acc)
       (reactions m) neg_infinity).

(** A solver for the problems on such a network; on any other network
    it looks for no other solution than a common rate.  It moves the rate
    to its upper limit
    when the objective is maximised and to its lower limit when it is
    minimised.  That rate is the optimum when it is feasible; when it is
    not, the problem has no solution, which the solver reports, and the
    rate is what it leaves behind as fluxes. *)
Definition toy_solve (m : Model) : outcome :=
  let v :=
    match obj_direction (objective m) with
    | Max => upper_limit m
    | Min => lower_limit m
    end in
  if feasible m (fun _ => v) then
    {| out_status := OPTIMAL;
       objective_value := forward_value (objective m) v;
       flux := fun _ => v |}
  else
    {| out_status := INFEASIBLE; objective_value := nan;
       flux := fun _ => v |}.

(** Like GLPK, the solver takes a constraint only when its bounds are
    ordered. *)
Definition toy_solver : backend :=
  {| solve := toy_solve; admits := fun c => con_lb c <=? con_ub c |}.

Definition fraction : float := 0x1.47ae147ae147bp-7.   (* 0.01 *)
Definition max_fraction : float := 0.5.

(** A reference network with one exchange reaction, and the surroundings
    of a run on a BLAST table that maps one gene to it. *)
Definition cpd_B : Metabolite :=
  {| met_id := "cpd_B_e"; met_name := "B"; compartment := "extracellular" |}.

Definition exchange_B : Reaction :=
  {| rxn_id := "EX_cpd_B_e"; rxn_name := "B exchange";
     rxn_metabolites := [(cpd_B, -1)];
     lower_bound := -5; upper_bound := 7;
     gene_reaction_rule := ""; rxn_genes := [] |}.

Definition reference : Model :=
  {| reactions := [uptake; biomass 0; exchange_B];
     metabolites := [cpd_A; cpd_B];
     genes := []; constraints := [];
     objective := {| obj_direction := Max; obj_coefficients := [] |};
     contexts := [] |}.

Definition gene_1 : Gene :=
  {| gene_id := "WP_1"; kegg_genes := Some "eco:b0001" |}.

Definition gene_2 : Gene :=
  {| gene_id := "WP_2"; kegg_genes := Some "eco:b0002" |}.

Definition rxn_table : list (string * list Gene) :=
  [ ("EX_cpd_B_e", [gene_1; gene_2]);
    ("rxn99999_c", [gene_1]);
    ("rxn_uptake_c", [gene_2]) ].

(** A metabolite outside the cell with no exchange reaction of its own in
    the reference network, and the reaction that imports it. *)
Definition cpd_C : Metabolite :=
  {| met_id := "cpd_C_e"; met_name := "C"; compartment := "extracellular" |}.

Definition import_C : Reaction :=
  {| rxn_id := "rxn_import_c"; rxn_name := "import of C";
     rxn_metabolites := [(cpd_C, -1); (cpd_A, 1)];
     lower_bound := 0; upper_bound := 1000;
     gene_reaction_rule := ""; rxn_genes := [] |}.

Definition reference_with_import : Model :=
  {| reactions := [uptake; biomass 0; exchange_B; import_C];
     metabolites := [cpd_A; cpd_B; cpd_C];
     genes := []; constraints := [];
     objective := {| obj_direction := Max; obj_coefficients := [] |};
     contexts := [] |}.

(** A curated model that comes with its own biomass reaction, which must
    carry at least one unit of flux. *)
Definition curated : Model :=
  {| reactions := [uptake; biomass 1]; metabolites := [cpd_A];
     genes := []; constraints := [];
     objective := {| obj_direction := Max; obj_coefficients := [] |};
     contexts := [] |}.

Definition toy_external (m : Model) : result string :=
  Ok "extracellular"%string.

(** The gene ids of a rule that is a disjunction: the pieces between the
    separators [" or "].  [skip] counts the characters of a separator still
    to be passed over. *)
Fixpoint split_or_aux (skip : nat) (cur s : string) : list string :=
  match s with
  | EmptyString => [cur]
  | String c rest =>
      match skip with
      | S k => split_or_aux k cur rest
      | O =>
          if String.prefix " or " s then cur :: split_or_aux 3 "" rest
          else split_or_aux 0 (cur ++ String c "") rest
      end
  end.

Definition split_or (rule : string) : list string :=
  if String.eqb rule "" then [] else split_or_aux 0 "" rule.

(** A rule parser for disjunctions.  Like cobra's parser, it rejects a
    text in which a gene id is missing or is one of the operators [and]
    and [or]. *)
Definition toy_gpr (rule : string) : option (list string) :=
  let named := split_or rule in
  if existsb
       (fun g => String.eqb g "and" || String.eqb g "or"
                 || String.eqb g EmptyString)
       named
  then None else Some named.

Definition toy_world : world :=
  {| input_exists := true;
     universal_model := reference;
     draft_rxns := rxn_table;
     sbml_model := Raise FileNotFoundError;
     sbml_objective := "";
     assign_medium := fun _ => mret tt;
     exchange_ids := fun m =>
       Ok (List.filter (String.prefix "EX_") (List.map rxn_id (reactions m)));
     find_external_compartment := fun _ => Ok "extracellular"%string;
     gpr_genes := toy_gpr;
     solver := toy_solver |}.

End Examples.

(** ** Predicates on text used in the statements *)

Module Text.

Definition is_ascii (c : ascii) : bool := (nat_of_ascii c <? 128)%nat.

Fixpoint ascii_text (s : string) : bool :=
  match s with
  | EmptyString => true
  | String c rest => is_ascii c && ascii_text rest
  end.

(** Word characters only. *)
Fixpoint all_word (s : string) : bool :=
  match s with
  | EmptyString => true
  | String c rest => Utils.is_word c && all_word rest
  end.

(** A line of white space only. *)
Fixpoint blank (s : string) : bool :=
  match s with
  | EmptyString => true
  | String c rest => Hits.is_space c && blank rest
  end.

Definition newline : string := String "010"%char EmptyString.
Definition underscore : string := String "_"%char EmptyString.

End Text.

(** ** What a context gives back *)

Module Frame.

Import Cobra.

Definition rxn_ids (m : Model) : list string :=
  List.map rxn_id (reactions m).

(** Two states of a model that differ at most in the order of the
    reactions and in what the solver was handed directly. *)
Definition same_network (m1 m2 : Model) : Prop :=
  reactions m1 ≡ₚ reactions m2
  /\ metabolites m1 = metabolites m2
  /\ genes m1 = genes m2
  /\ objective m1 = objective m2
  /\ contexts m1 = contexts m2.

(** Running the undo actions of a context, the most recent one first. *)
Definition undo_all (top : list undo) (m : Model) : Model :=
  fold_left (fun m' u => apply_undo u m') top m.

(** A computation run inside a context on a model with distinct reaction
    ids stays inside that context, keeps the ids distinct, and leaves
    nothing behind that the exit of the context would not take back. *)
Definition reversible {A : Type} (c : tx A) : Prop :=
  forall m top rest r m',
    contexts m = top :: rest ->
    NoDup (rxn_ids m) ->
    c m = (r, m') ->
    (exists top', contexts m' = top' :: rest)
    /\ NoDup (rxn_ids m')
    /\ same_network (exit m') (exit m).

End Frame.

(** ** A BLAST table used in the worked examples *)

Module Samples.
Import Cobra Text Hits.

Definition tab : string := String "009"%char EmptyString.

(** Two lines of tabular BLAST output. *)
Definition blast_lines : list string :=
  [ "WP_004111608.1" ++ tab ++ "aai:AARI_04680" ++ tab ++ "50.9" ++ newline;
    "3-atp" ++ tab ++ "eco:b0002" ++ tab ++ "98.1" ++ newline ].

Definition gene_modelseed : gmap string (list string) :=
  list_to_map
    [ ("aai:AARI_04680", ["rxn_uptake"; "rxn99999"]);
      ("eco:b0002", ["rxn_uptake"]);
      ("eco:b0003", ["EX_cpd_B_e"]) ].

Definition python_set_order (s : gset string) : list string := elements s.

End Samples.

(** ** Further surroundings for the worked examples *)

Module Worlds.

Import Cobra Funcs Build.

(** A run on the curated model, read from an SBML file, against a
    universal network that has the uptake reaction only. *)
Definition sbml_world : world :=
  {| input_exists := true;
     universal_model := Examples.draft;
     draft_rxns := [];
     sbml_model := Ok Examples.curated;
     sbml_objective := "biomass_GmPos";
     assign_medium := fun _ => mret tt;
     exchange_ids := fun m =>
       Ok (List.filter (String.prefix "EX_") (List.map rxn_id (reactions m)));
     find_external_compartment := fun _ => Ok "extracellular"%string;
     gpr_genes := Examples.toy_gpr;
     solver := Examples.toy_solver |}.

(** A run on the curated model against the universal network [bag 0],
    which knows both of its reactions. *)
Definition curated_world : world :=
  {| input_exists := true;
     universal_model := Examples.bag 0;
     draft_rxns := [];
     sbml_model := Ok Examples.curated;
     sbml_objective := "biomass_GmPos";
     assign_medium := fun _ => mret tt;
     exchange_ids := fun m =>
       Ok (List.filter (String.prefix "EX_") (List.map rxn_id (reactions m)));
     find_external_compartment := fun _ => Ok "extracellular"%string;
     gpr_genes := Examples.toy_gpr;
     solver := Examples.toy_solver |}.

End Worlds.

(** * Verification *)

(** ** Identifier sanitising *)

Module UtilsFacts.

Import Utils.

(** C9: [sanitize_sbml_id "3-atp"] is ["_3_atp"],
    [sanitize_sbml_id "an invalid--id #3"] is ["an_invalid_id_3"], and
    both results are accepted by [is_valid_sbml_id]. *)
Theorem sanitize_sbml_id_examples :
  sanitize_sbml_id "3-atp" = "_3_atp"
  /\ sanitize_sbml_id "an invalid--id #3" = "an_invalid_id_3"
  /\ is_valid_sbml_id (sanitize_sbml_id "3-atp") = true
  /\ is_valid_sbml_id (sanitize_sbml_id "an invalid--id #3") = true.
Proof. repeat split; reflexivity. Qed.

(** The predicate reads as the docstring says: a leading letter or
    underscore, then word characters only (up to a final newline, which
    Python's [$] lets through). *)
Lemma is_valid_sbml_id_first (c : ascii) (rest : string) :
  is_valid_sbml_id (String c rest) = true ->
  is_letter c = true \/ is_underscore c = true.
Proof.
  unfold is_valid_sbml_id. intros H.
  apply andb_true_iff in H as [H _]. now apply orb_true_iff in H.
Qed.

End UtilsFacts.

(** ** Parameter validation *)

Module ValidationFacts.

Import Validation.
Local Open Scope float_scope.

Ltac split_ifs :=
  repeat match goal with
         | |- context [if ?b then _ else _] => destruct b; cbn
         end.

Lemma check_fractions_max (mn mx : float) :
  max_frac (check_fractions mn mx)
  = if improper mx then default_max_frac else mx.
Proof.
  unfold check_fractions.
  destruct (improper mn), (improper mx); cbn; split_ifs; reflexivity.
Qed.

Lemma check_fractions_min (mn mx : float) :
  let min1 := if improper mn then default_min_frac else mn in
  let max1 := if improper mx then default_max_frac else mx in
  min_frac (check_fractions mn mx)
  = if max1 <? min1 then max1 * 0.5 else min1.
Proof.
  unfold check_fractions.
  destruct (improper mn), (improper mx); cbn; split_ifs; reflexivity.
Qed.

Lemma check_fractions_warnings (mn mx : float) :
  let min1 := if improper mn then default_min_frac else mn in
  let max1 := if improper mx then default_max_frac else mx in
  warnings (check_fractions mn mx)
  = ((if improper mn then [ImproperMinimum mn] else [])
     ++ (if improper mx then [ImproperMaximum mx] else [])
     ++ (if max1 <? min1 then [MaximumBelowMinimum max1 min1] else []))%list.
Proof.
  unfold check_fractions.
  destruct (improper mn), (improper mx); cbn; split_ifs; reflexivity.
Qed.

Lemma select_objective_unrecognized (gram : string) :
  gram <> "positive"%string -> gram <> "negative"%string ->
  select_objective gram = Raise ValueError.
Proof.
  intros Hp Hn. unfold select_objective.
  apply String.eqb_neq in Hp, Hn. now rewrite Hp, Hn.
Qed.

(** C10, at the input [min_frac = 0.01], [max_frac = 5e-324] (the
    smallest positive binary64 number): the maximum passes the range
    check, is below the minimum, and halving it underflows, so the
    minimum fraction used for gap-filling is [0.0], which is not
    positive. *)
Theorem check_fractions_underflow :
  let fr := check_fractions default_min_frac 0x1p-1074 in
  improper default_min_frac = false
  /\ improper 0x1p-1074 = false
  /\ max_frac fr = 0x1p-1074
  /\ min_frac fr = 0
  /\ (0 <? min_frac fr) = false.
Proof. repeat split; reflexivity. Qed.

End ValidationFacts.

(** ** Computations on a model *)

Module TxFacts.

Import Cobra.

Lemma tx_bind_ok {A B : Type} (c : tx A) (k : A -> tx B) m b m' :
  (c ≫= k) m = (Ok b, m') ->
  exists a m1, c m = (Ok a, m1) /\ k a m1 = (Ok b, m').
Proof.
  unfold mbind, tx_bind.
  destruct (c m) as [[a|e] m1]; [eauto|discriminate].
Qed.

Lemma tx_bind_run {A B : Type} (c : tx A) (k : A -> tx B) m a m1 :
  c m = (Ok a, m1) -> (c ≫= k) m = k a m1.
Proof. unfold mbind, tx_bind. now intros ->. Qed.

Lemma lift_ok {A : Type} (r : result A) m a m' :
  lift r m = (Ok a, m') -> r = Ok a /\ m' = m.
Proof. unfold lift. now intros [= -> ->]. Qed.

Lemma get_ok m a m' : get m = (Ok a, m') -> a = m /\ m' = m.
Proof. unfold get. now intros [= -> ->]. Qed.

Lemma record_reactions u m : reactions (record u m) = reactions m.
Proof. unfold record. now destruct (contexts m). Qed.

Lemma record_constraints u m : constraints (record u m) = constraints m.
Proof. unfold record. now destruct (contexts m). Qed.

Lemma record_objective u m : objective (record u m) = objective m.
Proof. unfold record. now destruct (contexts m). Qed.

Lemma record_metabolites u m : metabolites (record u m) = metabolites m.
Proof. unfold record. now destruct (contexts m). Qed.

Lemma record_genes u m : genes (record u m) = genes m.
Proof. unfold record. now destruct (contexts m). Qed.

Lemma assign_objective_ok o m x m' :
  assign_objective o m = (Ok x, m') ->
  reactions m' = reactions m /\ constraints m' = constraints m
  /\ objective m' = o.
Proof.
  unfold assign_objective, modify. intros [= _ <-].
  now rewrite record_reactions, record_constraints, record_objective.
Qed.

Lemma assign_objective_reaction_ok r m x m' :
  assign_objective_reaction r m = (Ok x, m') ->
  reactions m' = reactions m /\ constraints m' = constraints m
  /\ objective m'
     = reaction_objective (obj_direction (objective m)) (rxn_id r).
Proof. unfold assign_objective_reaction. apply assign_objective_ok. Qed.

Lemma assign_objective_index_ok n m x m' :
  assign_objective_index n m = (Ok x, m') ->
  reactions m' = reactions m /\ constraints m' = constraints m.
Proof.
  unfold assign_objective_index. destruct (nth_error _ _); [|discriminate].
  intros H. apply assign_objective_reaction_ok in H. tauto.
Qed.

Lemma optimize_ok solver m sol m' :
  optimize solver m = (Ok sol, m') -> m' = m /\ sol = solution_of solver m.
Proof.
  unfold optimize.
  destruct (out_status _); cbn; intros [= <- <-] || discriminate; auto.
Qed.

Lemma mem_In (i : string) (l : list string) : mem i l = true <-> In i l.
Proof.
  unfold mem. rewrite existsb_exists. split.
  - intros (x & Hx & E). apply String.eqb_eq in E. now subst.
  - intros H. exists i. split; [assumption|apply String.eqb_refl].
Qed.

End TxFacts.

Tactic Notation "tx_step" hyp(H) "as" ident(a) ident(m) ident(H1) :=
  apply TxFacts.tx_bind_ok in H as (a & m & H1 & H).

(** ** The gap-fill solver *)

Module FindReactionsFacts.

Import Cobra Funcs TxFacts.
Local Open Scope float_scope.

Lemma with_context_ok {A : Type} (body : tx A) m a m' :
  with_context body m = (Ok a, m') ->
  exists m1, body (enter m) = (Ok a, m1) /\ m' = exit m1.
Proof.
  unfold with_context. destruct (body (enter m)) as [[a1|e] m1].
  - intros [= -> <-]. eauto.
  - destruct e; discriminate.
Qed.

Lemma prev_obj_constraint_ok obj V f mf step c :
  prev_obj_constraint obj V f mf step = Ok c ->
  con_reaction c = obj
  /\ ((step = 1%Z /\ con_lb c = V * f /\ con_ub c = V * mf)
      \/ (step = 2%Z /\ con_lb c = V * mf /\ con_ub c = V)).
Proof.
  unfold prev_obj_constraint, make_constraint.
  destruct (Z.eqb_spec step 1); [|destruct (Z.eqb_spec step 2)].
  - destruct (_ <? _); [discriminate|]. intros [= <-]. cbn. auto.
  - destruct (_ <? _); [discriminate|]. intros [= <-]. cbn. auto.
  - discriminate.
Qed.

Lemma orig_rxn_ids_spec model obj ft i :
  In i (orig_rxn_ids model obj ft) <->
  exists r, In r (reactions model) /\ rxn_id r = i
            /\ (i <> obj \/ ft = 3%Z).
Proof.
  unfold orig_rxn_ids, skipped. rewrite in_map_iff. split.
  - intros (r & <- & Hr). apply filter_In in Hr as [Hr Hs].
    exists r. repeat split; auto.
    apply negb_true_iff, andb_false_iff in Hs as [Hs|Hs].
    + left. now apply String.eqb_neq.
    + right. apply negb_false_iff in Hs. now apply Z.eqb_eq.
  - intros (r & Hr & <- & Hs). exists r. split; [reflexivity|].
    apply filter_In. split; [assumption|].
    apply negb_true_iff, andb_false_iff. destruct Hs as [Hs| ->].
    + left. now apply String.eqb_neq.
    + right. reflexivity.
Qed.

Lemma active_rxns_spec fl i :
  In i (active_rxns fl) <->
  exists v, In (i, v) fl /\ (activity_threshold <? abs v) = true.
Proof.
  unfold active_rxns. rewrite in_map_iff. split.
  - intros ([j v] & <- & H). apply filter_In in H as [H1 H2]. eauto.
  - intros (v & H1 & H2). exists (i, v). split; [reflexivity|].
    apply filter_In. auto.
Qed.



Lemma pfba_problem_inv solver model obj f mf step ft u1 x lp :
  pfba_problem solver model obj f mf step ft u1 = (Ok x, lp) ->
  exists r c,
    get_by_id (reactions u1) obj = Ok r
    /\ prev_obj_constraint obj
         (slim_value solver (snd (assign_objective_reaction r u1)))
         f mf step = Ok c
    /\ admits solver c = true
    /\ reactions lp = reactions u1
    /\ constraints lp = (constraints u1 ++ [c])%list
    /\ objective lp
       = {| obj_direction := Min;
            obj_coefficients :=
              coefficientDict (orig_rxn_ids model obj ft) (reactions u1) |}.
Proof.
  unfold pfba_problem. intros H.
  tx_step H as x2 u2 Hget. apply get_ok in Hget as [-> ->].
  tx_step H as r u3 Hr. apply lift_ok in Hr as [Hr ->].
  tx_step H as x4 u4 Hobj.
  tx_step H as V u5 Hslim.
  tx_step H as c u6 Hc. apply lift_ok in Hc as [Hc ->].
  tx_step H as x7 u7 Hadd.
  tx_step H as x8 u8 Hget. apply get_ok in Hget as [-> ->].
  tx_step H as x9 u9 Hidx.
  tx_step H as x10 u10 Hpfba.
  unfold set_linear_coefficients, modify in H. injection H as _ <-.
  apply assign_objective_ok in Hpfba as (R10 & C10 & O10).
  apply assign_objective_index_ok in Hidx as (R9 & C9).
  unfold solver_add in Hadd. destruct (admits solver c) eqn:Hadm;
    [|discriminate].
  injection Hadd as _ <-.
  unfold slim_optimize in Hslim. injection Hslim as <- <-.
  pose proof Hobj as Hobj'.
  apply assign_objective_reaction_ok in Hobj' as (R4 & C4 & _).
  exists r, c. rewrite Hobj. cbn [snd]. cbn in R9, C9.
  repeat split; auto; cbn.
  - congruence.
  - rewrite C10, C9. congruence.
  - rewrite O10. cbn. now rewrite R4.
Qed.

Lemma get_by_id_ok rs i r :
  get_by_id rs i = Ok r -> In r rs /\ rxn_id r = i.
Proof.
  unfold get_by_id. destruct (List.find _ _) eqn:E; [|discriminate].
  intros [= <-]. apply find_some in E as [H1 H2].
  split; [assumption|]. now apply String.eqb_eq.
Qed.

Lemma find_reactions_body_inv solver model tasks obj f mf step ft u0 sol lp :
  find_reactions_body solver model tasks obj f mf step ft u0 = (Ok sol, lp) ->
  exists u1,
    merge_model model tasks obj f ft u0 = (Ok tt, u1)
    /\ pfba_problem solver model obj f mf step ft u1 = (Ok tt, lp)
    /\ sol = solution_of solver lp.
Proof.
  unfold find_reactions_body. intros H.
  tx_step H as x1 u1 Hm. destruct x1.
  tx_step H as x2 u2 Hp. destruct x2.
  apply optimize_ok in H as [-> ->]. eauto.
Qed.


Import Examples.


(** *** Infeasible problems *)










(** *** What the context manager does not undo *)

Lemma apply_undo_constraints u m :
  constraints (apply_undo u m) = constraints m.
Proof. destruct u; reflexivity. Qed.

Lemma exit_constraints m : constraints (exit m) = constraints m.
Proof.
  unfold exit. destruct (contexts m) as [|top rest]; [reflexivity|].
  change (constraints m) with (constraints (set_contexts rest m)).
  generalize (set_contexts rest m).
  induction top as [|u top IH]; intros m0; cbn; [reflexivity|].
  now rewrite IH, apply_undo_constraints.
Qed.

Lemma remove_reactions_constraints ids m r m' :
  remove_reactions ids m = (r, m') -> constraints m' = constraints m.
Proof.
  unfold remove_reactions, modify. intros [= _ <-].
  revert m. induction ids as [|i ids IH]; intros m; cbn; [reflexivity|].
  rewrite IH. unfold remove_reaction.
  destruct (List.find _ _); [|reflexivity]. now rewrite record_constraints.
Qed.

Lemma add_reactions_constraints rs m r m' :
  add_reactions rs m = (r, m') -> constraints m' = constraints m.
Proof.
  unfold add_reactions. destruct (unique_ids _); intros [= _ <-];
    [|reflexivity].
  now rewrite record_constraints.
Qed.

Lemma set_lower_bound_constraints i value m r m' :
  set_lower_bound i value m = (r, m') -> constraints m' = constraints m.
Proof.
  unfold set_lower_bound.
  destruct (get_by_id _ _) as [r0|]; [|now intros [= _ <-]].
  destruct (_ <? _); intros [= _ <-]; [reflexivity|].
  now rewrite record_constraints.
Qed.

Lemma for_each_constraints {A : Type} (xs : list A) (body : A -> tx unit) :
  (forall x m r m', body x m = (r, m') -> constraints m' = constraints m) ->
  forall m r m', for_each xs body m = (r, m') ->
                 constraints m' = constraints m.
Proof.
  intros Hbody. induction xs as [|x xs IH]; intros m r m'; cbn.
  - now intros [= _ <-].
  - unfold mbind, tx_bind. destruct (body x m) as [[[]|e] m1] eqn:E.
    + intros H. apply IH in H. rewrite H. eapply Hbody, E.
    + intros [= _ <-]. eapply Hbody, E.
Qed.

Lemma merge_model_constraints model tasks obj f ft m r m' :
  merge_model model tasks obj f ft m = (r, m') ->
  constraints m' = constraints m.
Proof.
  unfold merge_model, mbind, tx_bind, get.
  destruct (remove_reactions _ m) as [[[]|e] m1] eqn:E1.
  2:{ intros [= _ <-]. eapply remove_reactions_constraints, E1. }
  apply remove_reactions_constraints in E1.
  destruct (add_reactions _ m1) as [[[]|e] m2] eqn:E2.
  2:{ intros [= _ <-]. apply add_reactions_constraints in E2. congruence. }
  apply add_reactions_constraints in E2.
  intros H. assert (constraints m' = constraints m2); [|congruence].
  revert H. unfold set_task_bounds. destruct tasks as [ts|].
  - apply for_each_constraints. intros x m0 r0 m0'.
    unfold mbind, tx_bind, get.
    destruct (has_id _ _); [apply set_lower_bound_constraints|].
    now intros [= _ <-].
  - now intros [= _ <-].
Qed.

(** Every call that returns has handed one more constraint to the bag's
    solver, and leaving the [with] block did not take it back. *)
Lemma find_reactions_appends_constraint
    solver model tasks obj f mf step ft bag ids bag' :
  find_reactions solver model tasks obj f mf step ft bag = (Ok ids, bag') ->
  exists c, con_reaction c = obj
            /\ constraints bag' = (constraints bag ++ [c])%list.
Proof.
  unfold find_reactions. intros H.
  tx_step H as sol m1 Hbody.
  apply with_context_ok in Hbody as (lp & Hbody & ->).
  unfold mret, tx_ret in H. injection H as _ <-.
  apply find_reactions_body_inv in Hbody as (u1 & Hm & Hp & _).
  apply merge_model_constraints in Hm.
  apply pfba_problem_inv in Hp as (r & c & _ & Hc & _ & _ & HC & _).
  apply prev_obj_constraint_ok in Hc as [Hc _].
  exists c. split; [assumption|].
  rewrite exit_constraints, HC, Hm. reflexivity.
Qed.

(** C1, at a concrete call: the bag [bag 0] carries no solver constraint
    before the call; after it, its reactions, bounds, metabolites, genes
    and objective are as before, but its solver holds the band
    [10 * 0.01 <= biomass flux <= 10 * 0.5] that the call added through
    [solver.add]. *)
Theorem find_reactions_leaves_constraint :
  let out :=
    find_reactions toy_solver empty_model None "biomass_GmPos"
      fraction max_fraction 1 1 (bag 0) in
  fst out = Ok {[ "rxn_uptake_c"; "biomass_GmPos" ]}
  /\ reactions (snd out) = reactions (bag 0)
  /\ metabolites (snd out) = metabolites (bag 0)
  /\ genes (snd out) = genes (bag 0)
  /\ objective (snd out) = objective (bag 0)
  /\ contexts (snd out) = contexts (bag 0)
  /\ constraints (bag 0) = []
  /\ constraints (snd out)
     = [ {| con_reaction := "biomass_GmPos";
            con_lb := 10 * fraction; con_ub := 10 * max_fraction |} ].
Proof. vm_compute. repeat split; reflexivity. Qed.

(** *** The problem posed to the solver *)




End FindReactionsFacts.


(** ** The [reconstruct] driver *)

Module BuildFacts.

Import Cobra Funcs Validation Build TxFacts ValidationFacts.
Local Open Scope float_scope.

Lemma result_bind_ok {A B : Type} (r : result A) (k : A -> result B) b :
  r ≫= k = Ok b -> exists a, r = Ok a /\ k a = Ok b.
Proof.
  unfold mbind, result_bind. destruct r as [a|e]; [eauto|discriminate].
Qed.

Lemma run_ok {A : Type} (c : tx A) m a m' :
  run c m = Ok (a, m') -> c m = (Ok a, m').
Proof.
  unfold run. destruct (c m) as [[x|e] m1]; [|discriminate].
  now intros [= -> ->].
Qed.

(** Once the file, the file type and the gram stain are accepted,
    [reconstruct] is the later stages run on the fractions as
    [check_fractions] leaves them; with gap-filling, these are the
    fractions that [gapfill_rounds] gets. *)
Lemma reconstruct_gapfill_stage
    (w : world) (file_type : Z) (media : media_spec)
    (tasks : option (list string)) (mn mx : float) (gram : string)
    (open_exchanges : bool) ftype obj cpds draft obj' :
  input_exists w = true ->
  FileType_of file_type = Ok ftype ->
  select_objective gram = Ok obj ->
  resolve_media media = Ok cpds ->
  draft_stage w ftype obj = Ok (draft, obj') ->
  reconstruct w file_type media tasks mn mx gram true open_exchanges
  = (final_model ←
       gapfill_rounds w ftype file_type cpds tasks obj'
         (min_frac (check_fractions mn mx))
         (max_frac (check_fractions mn mx)) draft;
     finish_model w open_exchanges final_model).
Proof.
  intros Hex Hft Hobj Hmed Hdraft. unfold reconstruct.
  rewrite Hex, Hft, Hobj. cbn [negb mbind result_bind].
  unfold build_stages. rewrite Hmed. cbn [mbind result_bind].
  rewrite Hdraft. reflexivity.
Qed.

(** C7: out-of-range fractions are replaced, with a warning each, and
    never make the run fail: a minimum outside (0, 1] becomes 0.01, a
    maximum outside (0, 1] becomes 0.5, and a maximum then below the
    minimum makes the minimum half the maximum.  The replaced values are
    what the run goes on with: once the file, the file type and the gram
    stain are accepted, [reconstruct] is the later stages run on them,
    and with gap-filling they are the fractions handed to
    [gapfill_rounds].  A gram stain other than "positive" or "negative"
    raises [ValueError], whatever the reference network and the other
    inputs are, so before any model is built. *)
Theorem reconstruct_validation
    (w : world) (file_type : Z) (media : media_spec)
    (tasks : option (list string)) (mn mx : float) (gram : string)
    (gapfill open_exchanges : bool) :
  let fr := check_fractions mn mx in
  let min1 := if (mn <=? 0) || (1 <? mn) then 0x1.47ae147ae147bp-7 else mn in
  let max1 := if (mx <=? 0) || (1 <? mx) then 0.5 else mx in
  let min2 := if max1 <? min1 then max1 * 0.5 else min1 in
  max_frac fr = max1
  /\ min_frac fr = (if max1 <? min1 then max1 * 0.5 else min1)
  /\ ((mn <=? 0) || (1 <? mn) = true ->
      In (ImproperMinimum mn) (warnings fr))
  /\ ((mx <=? 0) || (1 <? mx) = true ->
      In (ImproperMaximum mx) (warnings fr))
  /\ ((max1 <? min1) = true ->
      In (MaximumBelowMinimum max1 min1) (warnings fr))
  /\ (forall ftype obj,
        input_exists w = true ->
        FileType_of file_type = Ok ftype ->
        select_objective gram = Ok obj ->
        reconstruct w file_type media tasks mn mx gram gapfill open_exchanges
        = build_stages w ftype file_type media tasks obj min2 max1
            gapfill open_exchanges)
  /\ (forall ftype obj cpds draft obj',
        input_exists w = true ->
        FileType_of file_type = Ok ftype ->
        select_objective gram = Ok obj ->
        resolve_media media = Ok cpds ->
        draft_stage w ftype obj = Ok (draft, obj') ->
        reconstruct w file_type media tasks mn mx gram true open_exchanges
        = (final_model ←
             gapfill_rounds w ftype file_type cpds tasks obj' min2 max1
               draft;
           finish_model w open_exchanges final_model))
  /\ (input_exists w = true ->
      (exists ftype, FileType_of file_type = Ok ftype) ->
      gram <> "positive"%string -> gram <> "negative"%string ->
      reconstruct w file_type media tasks mn mx gram gapfill open_exchanges
      = Raise ValueError).
Proof.
  intros fr min1 max1 min2.
  pose proof (check_fractions_max mn mx) as Hmax.
  pose proof (check_fractions_min mn mx) as Hmin.
  pose proof (check_fractions_warnings mn mx) as Hw.
  cbv zeta in Hmin, Hw.
  fold fr in Hmax, Hmin, Hw.
  unfold improper, default_min_frac, default_max_frac in Hmax, Hmin, Hw.
  fold min1 in Hmin, Hw. fold max1 in Hmin, Hw.
  split; [exact Hmax|]. split; [exact Hmin|].
  split; [intros E; rewrite Hw, E; apply in_or_app; left; left; reflexivity|].
  split.
  { intros E. rewrite Hw, E. apply in_or_app. right.
    apply in_or_app. left. left. reflexivity. }
  split.
  { intros E. rewrite Hw, E. apply in_or_app. right.
    apply in_or_app. right. left. reflexivity. }
  split.
  { intros ftype obj Hex Hft Hobj. unfold reconstruct.
    rewrite Hex, Hft, Hobj. cbn [negb mbind result_bind].
    fold fr. unfold min2. now rewrite Hmax, Hmin. }
  split.
  { intros ftype obj cpds draft obj' Hex Hft Hobj Hmed Hdraft.
    rewrite (reconstruct_gapfill_stage _ _ _ _ _ _ _ _ _ _ _ _ _
               Hex Hft Hobj Hmed Hdraft).
    fold fr. unfold min2. now rewrite Hmax, Hmin. }
  intros Hex (ftype & Hft) Hp Hn. unfold reconstruct.
  rewrite Hex, Hft. cbn.
  now rewrite (select_objective_unrecognized gram Hp Hn).
Qed.

Lemma reconstruct_validation_witness :
  reconstruct Examples.toy_world 2 (Named "rich") None 7 (-1) "purple"
    true true
  = Raise ValueError
  /\ min_frac (check_fractions 7 (-1)) = 0x1.47ae147ae147bp-7
  /\ max_frac (check_fractions 7 (-1)) = 0.5
  /\ (exists final,
        reconstruct Worlds.curated_world 3 (Named "rich") None 7 (-1)
          "positive" true true
        = Ok final
        /\ build_stages Worlds.curated_world SBML 3 (Named "rich") None
             "biomass_GmPos" 0x1.47ae147ae147bp-7 0.5 true true
           = Ok final)
  /\ build_stages Worlds.curated_world SBML 3 (Named "rich") None
       "biomass_GmPos" 7 (-1) true true
     = Raise ValueError.
Proof.
  destruct (reconstruct_validation Examples.toy_world 2 (Named "rich") None
              7 (-1) "purple" true true)
    as (Hmax & Hmin & _ & _ & _ & _ & _ & Hgram).
  split;
    [apply Hgram;
       [reflexivity|eexists; reflexivity|discriminate|discriminate]|].
  split; [exact Hmin|]. split; [exact Hmax|].
  destruct (reconstruct_validation Worlds.curated_world 3 (Named "rich") None
              7 (-1) "positive" true true)
    as (_ & _ & _ & _ & _ & Hrun & _).
  specialize (Hrun SBML "biomass_GmPos"%string eq_refl eq_refl eq_refl).
  split; [|vm_compute; reflexivity].
  rewrite Hrun.
  destruct (build_stages Worlds.curated_world SBML 3 (Named "rich") None
              "biomass_GmPos" _ _ true true) as [final|e] eqn:H;
    [|vm_compute in H; discriminate].
  exists final. split; [reflexivity|].
  rewrite <- H. vm_compute. reflexivity.
Defined.

(** *** Exchange bounds of the returned model *)

Lemma rebound_nil lb ub rs : List.map (rebound [] lb ub) rs = rs.
Proof. induction rs as [|r rs IH]; cbn; [reflexivity|now rewrite IH]. Qed.

Lemma rebound_cons i ids lb ub rs :
  List.map (rebound ids lb ub) (update_rxn i (set_bounds lb ub) rs)
  = List.map (rebound (i :: ids) lb ub) rs.
Proof.
  unfold update_rxn. rewrite List.map_map. apply List.map_ext. intros r.
  unfold rebound, is_rxn. cbn [mem existsb].
  fold (mem (rxn_id r) ids).
  rewrite (String.eqb_sym (rxn_id r) i).
  destruct (String.eqb i (rxn_id r)); cbn.
  - now destruct (mem (rxn_id r) ids).
  - reflexivity.
Qed.

Lemma assign_all_bounds ids lb ub m x m' :
  for_each ids (fun exch => assign_bounds exch lb ub) m = (Ok x, m') ->
  reactions m' = List.map (rebound ids lb ub) (reactions m)
  /\ metabolites m' = metabolites m /\ genes m' = genes m
  /\ constraints m' = constraints m /\ objective m' = objective m.
Proof.
  revert m. induction ids as [|i ids IH]; intros m; cbn.
  - intros [= _ <-]. now rewrite rebound_nil.
  - intros H. tx_step H as y m1 Hi.
    unfold assign_bounds in Hi.
    destruct (get_by_id _ _); [|discriminate].
    destruct (ub <? lb); [discriminate|].
    injection Hi as _ <-.
    apply IH in H as (R & M & G & C & O).
    rewrite R, M, G, C, O.
    rewrite record_reactions, record_metabolites, record_genes,
      record_constraints, record_objective.
    cbn. now rewrite rebound_cons.
Qed.

Lemma forget_rebound ids lb ub rs :
  List.map (set_bounds 0 0) (List.map (rebound ids lb ub) rs)
  = List.map (set_bounds 0 0) rs.
Proof.
  rewrite List.map_map. apply List.map_ext. intros r.
  unfold rebound. now destruct (mem _ _).
Qed.

(** C8: in the model that [reconstruct] returns, every exchange reaction
    has bounds (0.0, 0.0) when [open_exchanges] is false and
    (-1000.0, 1000.0) when it is true, whatever bounds the earlier stages
    left.  The exchange reactions are those cobra classifies as such; the
    classification does not read flux bounds. *)
Theorem reconstruct_exchange_bounds
    (w : world) (file_type : Z) (media : media_spec)
    (tasks : option (list string)) (mn mx : float) (gram : string)
    (gapfill open_exchanges : bool) (final : Model) :
  (forall m, exchange_ids w m = exchange_ids w (forget_bounds m)) ->
  reconstruct w file_type media tasks mn mx gram gapfill open_exchanges
  = Ok final ->
  exists exchanges,
    exchange_ids w final = Ok exchanges
    /\ forall r, In r (reactions final) -> In (rxn_id r) exchanges ->
                 (lower_bound r, upper_bound r)
                 = if open_exchanges then (-1000, 1000) else (0, 0).
Proof.
  intros Hcls. unfold reconstruct.
  destruct (negb (input_exists w)); [discriminate|].
  intros H.
  apply result_bind_ok in H as (ftype & _ & H).
  apply result_bind_ok in H as (obj0 & _ & H).
  apply result_bind_ok in H as (med & _ & H).
  apply result_bind_ok in H as ([draft obj] & _ & H).
  apply result_bind_ok in H as (fm & _ & H).
  apply result_bind_ok in H as (fm' & Hfin & H).
  apply result_bind_ok in H as ([v fm''] & Hchk & H).
  injection H as <-.
  apply run_ok in Hchk. unfold check_model, slim_optimize in Hchk.
  injection Hchk as _ <-.
  unfold finalize_bounds in Hfin.
  apply result_bind_ok in Hfin as (ids & Hids & Hfin).
  assert (Hb : exchange_bounds open_exchanges
               = if open_exchanges then (-1000, 1000) else (0, 0))
    by reflexivity.
  destruct (exchange_bounds open_exchanges) as [lb ub].
  apply result_bind_ok in Hfin as ([x m] & Hrun & Hfin).
  injection Hfin as <-.
  apply run_ok, assign_all_bounds in Hrun as (R & M & G & C & O).
  exists ids. split.
  - rewrite Hcls, <- Hids, (Hcls fm). f_equal.
    unfold forget_bounds, set_contexts, set_reactions. cbn.
    rewrite R, M, G, C, O, forget_rebound. reflexivity.
  - intros r Hr Hin. rewrite R in Hr.
    apply in_map_iff in Hr as (r0 & <- & _).
    unfold rebound in Hin |- *.
    destruct (mem (rxn_id r0) ids) eqn:E; [exact Hb|].
    apply mem_In in Hin. congruence.
Qed.

Lemma toy_classification_ignores_bounds (m : Model) :
  exchange_ids Examples.toy_world m
  = exchange_ids Examples.toy_world (forget_bounds m).
Proof.
  cbn. do 2 f_equal. rewrite List.map_map. apply List.map_ext.
  now intros r.
Qed.

Lemma reconstruct_exchange_bounds_witness :
  exists final,
    reconstruct Examples.toy_world 2 (Named "rich") None 0.5 0.5 "positive"
      false false
    = Ok final
    /\ forall r, In r (reactions final) -> rxn_id r = "EX_cpd_B_e"%string ->
                 (lower_bound r, upper_bound r) = (0, 0).
Proof.
  destruct (reconstruct Examples.toy_world 2 (Named "rich") None 0.5 0.5
              "positive" false false) as [final|e] eqn:H;
    [|vm_compute in H; discriminate].
  exists final. split; [reflexivity|].
  destruct (reconstruct_exchange_bounds _ _ _ _ _ _ _ _ _ _
              toy_classification_ignores_bounds H) as (ids & Hids & Hb).
  intros r Hr Hid. apply Hb; [assumption|].
  cbn in Hids. injection Hids as <-.
  apply filter_In. split.
  - apply in_map_iff. eauto.
  - now rewrite Hid.
Defined.

End BuildFacts.

(** ** The draft model builder *)

Module CreateModelFacts.

Import Cobra Funcs TxFacts FindReactionsFacts.
Local Open Scope float_scope.

Lemma has_id_In rs i : has_id rs i = true <-> In i (List.map rxn_id rs).
Proof.
  unfold has_id, is_rxn. rewrite existsb_exists, in_map_iff. split.
  - intros (r & Hr & E). apply String.eqb_eq in E. eauto.
  - intros (r & E & Hr). exists r. split; [assumption|]. now apply String.eqb_eq.
Qed.

Lemma has_id_get rs i : has_id rs i = true -> exists r, get_by_id rs i = Ok r.
Proof.
  unfold has_id, get_by_id. intros H. apply existsb_exists in H as (r & Hr & E).
  destruct (List.find (is_rxn i) rs) eqn:F; [eauto|].
  pose proof (find_none _ _ F r Hr). congruence.
Qed.

Lemma add_missing_prefix {A} (key : A -> string) have cands :
  exists extra, add_missing key have cands = (have ++ extra)%list.
Proof.
  revert have. induction cands as [|c cands IH]; intros have; cbn.
  - exists []. now rewrite app_nil_r.
  - destruct (mem _ _).
    + apply IH.
    + destruct (IH (have ++ [c])%list) as (extra & ->).
      exists (c :: extra). now rewrite <- app_assoc.
Qed.

Lemma add_missing_keys {A} (key : A -> string) have cands k :
  In k (List.map key have) \/ In k (List.map key cands) ->
  In k (List.map key (add_missing key have cands)).
Proof.
  revert have. induction cands as [|c cands IH]; intros have; cbn.
  - intros [H|[]]; assumption.
  - intros H. destruct (mem (key c) (List.map key have)) eqn:E.
    + apply IH. destruct H as [H|[<-|H]]; auto. left. now apply mem_In.
    + apply IH. rewrite List.map_app, in_app_iff. cbn. tauto.
Qed.

Lemma update_rxn_absent i f rs :
  ~ In i (List.map rxn_id rs) -> update_rxn i f rs = rs.
Proof.
  unfold update_rxn. induction rs as [|r rs IH]; cbn; [reflexivity|].
  intros H. rewrite IH by tauto. unfold is_rxn.
  destruct (String.eqb_spec (rxn_id r) i); [tauto|reflexivity].
Qed.

Lemma update_rxn_last i f rs u :
  ~ In i (List.map rxn_id rs) -> rxn_id u = i ->
  update_rxn i f (rs ++ [u]) = (rs ++ [f u])%list.
Proof.
  intros H Hid. unfold update_rxn. rewrite List.map_app.
  fold (update_rxn i f rs). rewrite update_rxn_absent by assumption.
  cbn. unfold is_rxn. now rewrite Hid, String.eqb_refl.
Qed.

Section Step.
Variable gp : string -> option (list string).

(** The rule a reaction is left with when it is assigned the text
    [rule]. *)
Lemma add_draft_reaction_spec U k gl m :
  ~ In k (List.map rxn_id (reactions m)) ->
  exists m',
    add_draft_reaction gp U (k, gl) m = (Ok tt, m')
    /\ (forall g, In g (List.map gene_id (genes m)) ->
                  In g (List.map gene_id (genes m')))
    /\ ((has_id (reactions U) k = false /\ reactions m' = reactions m)
        \/ (exists u bound,
              has_id (reactions U) k = true
              /\ get_by_id (reactions U) k = Ok u
              /\ reactions m'
                 = (reactions m
                    ++ [set_rule
                          (match gp (or_rule gl) with
                           | Some _ => or_rule gl
                           | None => EmptyString
                           end) bound u])%list
              /\ (forall named g,
                    gp (or_rule gl) = Some named -> In g named ->
                    In g (List.map gene_id (genes m')))
              /\ (gp (or_rule gl) = None -> bound = []))).
Proof.
  intros Hfresh. unfold add_draft_reaction.
  destruct (has_id (reactions U) k) eqn:HU.
  - destruct (has_id_get _ _ HU) as (u & Hu).
    destruct (get_by_id_ok _ _ _ Hu) as [_ Hid].
    rewrite (tx_bind_run _ _ m u m) by (unfold lift; now rewrite Hu).
    assert (Hnot : has_id (reactions m) (rxn_id u) = false).
    { rewrite Hid. destruct (has_id (reactions m) k) eqn:E; [|reflexivity].
      apply has_id_In in E. contradiction. }
    unfold add_reactions at 1. unfold mbind, tx_bind.
    cbn [List.filter]. rewrite Hnot.
    cbn [negb List.map unique_ids mem existsb andb].
    set (m1 := record _ _).
    unfold assign_gene_reaction_rule.
    assert (R1 : reactions m1 = (reactions m ++ [u])%list).
    { unfold m1. now rewrite record_reactions. }
    assert (G1 : forall g, In g (List.map gene_id (genes m)) ->
                           In g (List.map gene_id (genes m1))).
    { intros g Hg. unfold m1. rewrite record_genes. cbn.
      apply add_missing_keys. now left. }
    assert (Hget : exists u', get_by_id (reactions m1) k = Ok u').
    { apply has_id_get, has_id_In. rewrite R1, List.map_app, in_app_iff.
      right. cbn. auto. }
    destruct Hget as (u' & ->).
    destruct (gp (or_rule gl)) as [named|] eqn:Hgp.
    + eexists. split; [reflexivity|].
      cbn [genes reactions set_genes set_reactions]. split.
      * intros g Hg. apply add_missing_keys. left. now apply G1.
      * right. exists u. eexists. split; [reflexivity|]. split; [exact Hu|].
        split; [rewrite R1; apply update_rxn_last; assumption|].
        split; [|discriminate].
        intros named' g [= <-] Hg. apply add_missing_keys. right.
        rewrite List.map_map. cbn. now rewrite List.map_id.
    + eexists. split; [reflexivity|].
      cbn [genes reactions set_genes set_reactions]. split; [exact G1|].
      right. exists u, []. split; [reflexivity|]. split; [exact Hu|].
      split; [rewrite R1; apply update_rxn_last; assumption|].
      split; [discriminate|reflexivity].
  - exists m. split; [reflexivity|]. split; [auto|]. left. auto.
Qed.

Lemma filter_has_id_subset U (ks : list string) k :
  In k (List.filter (has_id (reactions U)) ks) -> In k ks.
Proof. intros H. now apply filter_In in H. Qed.

Hypothesis gp_empty : gp EmptyString = Some [].

Lemma create_loop U m0 rest : forall done m,
  NoDup (List.map fst (done ++ rest)%list) ->
  List.map rxn_id (reactions m)
  = List.filter (has_id (reactions U)) (List.map fst done) ->
  (forall r, In r (reactions m) ->
     exists gl u bound, In (rxn_id r, gl) done
       /\ get_by_id (reactions U) (rxn_id r) = Ok u
       /\ r = set_rule
                (match gp (or_rule gl) with
                 | Some _ => or_rule gl
                 | None => EmptyString
                 end) bound u) ->
  (forall r named g, In r (reactions m) ->
     gp (gene_reaction_rule r) = Some named -> In g named ->
     In g (List.map gene_id (genes m))) ->
  (forall g, In g (List.map gene_id (genes m0)) ->
     In g (List.map gene_id (genes m))) ->
  exists m',
    for_each rest (add_draft_reaction gp U) m = (Ok tt, m')
    /\ List.map rxn_id (reactions m')
       = List.filter (has_id (reactions U)) (List.map fst (done ++ rest)%list)
    /\ (forall r, In r (reactions m') ->
         exists gl u bound, In (rxn_id r, gl) (done ++ rest)%list
           /\ get_by_id (reactions U) (rxn_id r) = Ok u
           /\ r = set_rule
                    (match gp (or_rule gl) with
                     | Some _ => or_rule gl
                     | None => EmptyString
                     end) bound u)
    /\ (forall r named g, In r (reactions m') ->
         gp (gene_reaction_rule r) = Some named -> In g named ->
         In g (List.map gene_id (genes m')))
    /\ (forall g, In g (List.map gene_id (genes m0)) ->
         In g (List.map gene_id (genes m'))).
Proof.
  induction rest as [|[k gl] rest IH]; intros done m Hnd Ha Hb Hc Hd.
  - exists m. rewrite app_nil_r. cbn. auto.
  - assert (Hfresh : ~ In k (List.map rxn_id (reactions m))).
    { rewrite Ha. intros Hin. apply filter_has_id_subset in Hin.
      rewrite List.map_app in Hnd. apply NoDup_app in Hnd as (_ & Hdis & _).
      apply (Hdis k); [now apply list_elem_of_In|]. cbn. left. }
    destruct (add_draft_reaction_spec U k gl m Hfresh)
      as (m1 & Hstep & Hmono & Hcase).
    cbn [for_each]. rewrite (tx_bind_run _ _ _ _ _ Hstep).
    replace (done ++ (k, gl) :: rest)%list
      with ((done ++ [(k, gl)]) ++ rest)%list in *
      by (now rewrite <- app_assoc).
    apply IH; [assumption| | | |].
    + rewrite List.map_app, List.filter_app. cbn.
      destruct Hcase as [(HU & R)|(u & bound & HU & Hu & R & _)].
      * rewrite HU, R, Ha. now rewrite app_nil_r.
      * rewrite HU, R, List.map_app, Ha. cbn.
        destruct (get_by_id_ok _ _ _ Hu) as [_ ->]. reflexivity.
    + intros r Hr.
      destruct Hcase as [(HU & R)|(u & bound & HU & Hu & R & _)];
        rewrite R in Hr.
      * destruct (Hb r Hr) as (gl' & u & bound & Hin & Hu & E).
        exists gl', u, bound. rewrite in_app_iff. auto.
      * apply in_app_iff in Hr as [Hr|[<-|[]]].
        -- destruct (Hb r Hr) as (gl' & u' & bound' & Hin & Hu' & E).
           exists gl', u', bound'. rewrite in_app_iff. auto.
        -- destruct (get_by_id_ok _ _ _ Hu) as [_ Hid].
           exists gl, u, bound. cbn [rxn_id set_rule]. rewrite Hid.
           rewrite in_app_iff. cbn. auto.
    + intros r named g Hr Hp Hg.
      destruct Hcase as [(HU & R)|(u & bound & HU & Hu & R & Hnew & _)];
        rewrite R in Hr.
      * apply Hmono. eapply Hc; eassumption.
      * apply in_app_iff in Hr as [Hr|[<-|[]]].
        -- apply Hmono. eapply Hc; eassumption.
        -- cbn [gene_reaction_rule set_rule] in Hp.
           destruct (gp (or_rule gl)) as [named'|] eqn:Hgp.
           ++ eapply Hnew; [reflexivity|]. congruence.
           ++ rewrite gp_empty in Hp. injection Hp as <-. destruct Hg.
    + intros g Hg. apply Hmono, Hd, Hg.
Qed.
End Step.




End CreateModelFacts.

(** ** The model integrator *)

Module GapfillFacts.

Import Cobra Funcs TxFacts FindReactionsFacts CreateModelFacts.
Local Open Scope float_scope.

Lemma add_missing_present {A} (key : A -> string) have c :
  In (key c) (List.map key have) -> add_missing key have [c] = have.
Proof.
  intros H. cbn. apply mem_In in H. now rewrite H.
Qed.

Lemma has_id_app rs rs' i :
  has_id (rs ++ rs') i = has_id rs i || has_id rs' i.
Proof. unfold has_id. apply existsb_app. Qed.

Section Exchange.
Variable fec : Model -> result string.

Lemma add_exchange_inv cpd m x m' :
  add_exchange fec cpd m = (Ok x, m') ->
  In cpd (metabolites m) ->
  metabolites m' = metabolites m
  /\ ((reactions m' = reactions m
       /\ (compartment cpd <> "extracellular"%string
           \/ has_id (reactions m) ("EX_" ++ met_id cpd) = true))
      \/ (compartment cpd = "extracellular"%string
          /\ has_id (reactions m) ("EX_" ++ met_id cpd) = false
          /\ exists e,
               reactions m' = (reactions m ++ [e])%list
               /\ rxn_id e = ("EX_" ++ met_id cpd)%string
               /\ lower_bound e = -1000 /\ upper_bound e = 1000
               /\ rxn_metabolites e = [(cpd, -1)]
               /\ rxn_name e = (met_name cpd ++ " exchange")%string)).
Proof.
  unfold add_exchange. intros H Hin.
  destruct (String.eqb_spec (compartment cpd) "extracellular") as [Hc|Hc];
    cbn [negb] in H.
  2:{ injection H as _ <-. auto. }
  tx_step H as mm m1 Hget. apply get_ok in Hget as [-> ->].
  destruct (has_id (reactions m) ("EX_" ++ met_id cpd)) eqn:Hhas.
  { injection H as _ <-. auto. }
  tx_step H as y m2 Hb.
  unfold add_boundary in Hb.
  destruct (fec m) as [external|]; [|discriminate].
  destruct (negb _); [discriminate|].
  rewrite Hhas in Hb.
  unfold add_reactions in Hb. cbn [List.filter rxn_id] in Hb.
  rewrite Hhas in Hb. cbn [negb List.map unique_ids mem existsb andb rxn_id] in Hb.
  injection Hb as _ <-.
  unfold assign_name in H.
  destruct (get_by_id _ _); [|discriminate].
  injection H as _ <-.
  cbn [metabolites reactions set_reactions].
  rewrite record_metabolites, record_reactions.
  cbn [metabolites reactions set_reactions set_genes set_metabolites].
  split.
  - unfold metabolites_of. cbn. apply add_missing_present.
    now apply in_map.
  - right. split; [assumption|]. split; [reflexivity|].
    eexists. split.
    + apply update_rxn_last; [|reflexivity].
      intros Hx. apply has_id_In in Hx. congruence.
    + cbn. auto 10.
Qed.

Lemma exchange_loop rest : forall m x m',
  for_each rest (add_exchange fec) m = (Ok x, m') ->
  (forall cpd, In cpd rest -> In cpd (metabolites m)) ->
  metabolites m' = metabolites m
  /\ exists exs,
       reactions m' = (reactions m ++ exs)%list
       /\ (forall e, In e exs ->
            exists cpd,
              In cpd rest /\ compartment cpd = "extracellular"%string
              /\ rxn_id e = ("EX_" ++ met_id cpd)%string
              /\ lower_bound e = -1000 /\ upper_bound e = 1000
              /\ rxn_metabolites e = [(cpd, -1)]
              /\ rxn_name e = (met_name cpd ++ " exchange")%string)
       /\ (forall cpd, In cpd rest ->
            compartment cpd = "extracellular"%string ->
            has_id (reactions m') ("EX_" ++ met_id cpd) = true)
       /\ (forall cpd, In cpd rest ->
            compartment cpd = "extracellular"%string ->
            has_id (reactions m) ("EX_" ++ met_id cpd) = false ->
            exists e, In e exs /\ rxn_id e = ("EX_" ++ met_id cpd)%string).
Proof.
  induction rest as [|cpd rest IH]; intros m x m' H Hmets.
  - cbn in H. injection H as _ <-. split; [reflexivity|].
    exists []. rewrite app_nil_r. split; [reflexivity|].
    split; [intros e []|]. split; intros c [].
  - cbn [for_each] in H. tx_step H as y m1 Hstep.
    apply add_exchange_inv in Hstep as (M1 & Hcase); [|apply Hmets; now left].
    apply IH in H as (M' & exs' & R' & He & Hall & Hnew).
    2:{ intros c Hc. rewrite M1. apply Hmets. now right. }
    split; [congruence|].
    destruct Hcase as [(R1 & Hwhy)|(Hext & Habs & e & R1 & Hid & Hrest)].
    + exists exs'. rewrite R1 in R', Hnew. split; [exact R'|].
      split.
      { intros e Hin. destruct (He e Hin) as (c & Hc & Hc').
        exists c. split; [now right|exact Hc']. }
      split.
      { intros c [<-|Hc] Hx; [|now apply Hall].
        destruct Hwhy as [Hwhy|Hwhy]; [contradiction|].
        rewrite R', has_id_app, Hwhy. reflexivity. }
      intros c [<-|Hc] Hx Hno; [|now apply Hnew].
      destruct Hwhy as [Hwhy|Hwhy]; [contradiction|congruence].
    + exists (e :: exs'). rewrite R1, <- app_assoc in R'. cbn in R'.
      split; [exact R'|]. split.
      { intros e' [<-|Hin].
        - exists cpd. split; [now left|]. tauto.
        - destruct (He e' Hin) as (c & Hc & Hc').
          exists c. split; [now right|exact Hc']. }
      split.
      { intros c [<-|Hc] Hx; [|now apply Hall].
        rewrite R', has_id_app. apply orb_true_iff. right.
        apply has_id_In. cbn. auto. }
      intros c [<-|Hc] Hx Hno.
      * exists e. split; [now left|assumption].
      * destruct (has_id (reactions m1) ("EX_" ++ met_id c)) eqn:E.
        -- rewrite R1, has_id_app, Hno in E. cbn in E.
           rewrite orb_false_r in E. unfold is_rxn in E.
           apply String.eqb_eq in E. exists e. split; [now left|assumption].
        -- destruct (Hnew c Hc Hx E) as (e' & He' & Hid').
           exists e'. split; [now right|assumption].
Qed.
End Exchange.

Lemma collect_get rs ids rxns :
  collect (get_by_id rs) ids = Ok rxns ->
  List.map rxn_id rxns = ids
  /\ forall r, In r rxns -> get_by_id rs (rxn_id r) = Ok r.
Proof.
  revert rxns. induction ids as [|i ids IH]; intros rxns; cbn.
  - intros [= <-]. split; [reflexivity|intros r []].
  - unfold mbind, result_bind.
    destruct (get_by_id rs i) as [r|] eqn:Hr; [|discriminate].
    destruct (collect _ ids) as [ys|]; [|discriminate].
    intros [= <-]. destruct (IH ys eq_refl) as [Hids Hall].
    destruct (get_by_id_ok _ _ _ Hr) as [_ Hid].
    split; [cbn; congruence|].
    intros r' [<-|Hin]; [congruence|now apply Hall].
Qed.

Lemma new_rxns_ok universal new_rxn_ids obj step rxns :
  new_rxns universal new_rxn_ids obj step = Ok rxns ->
  List.map rxn_id rxns
  = ((if (step =? 1)%Z then [obj] else [])
     ++ List.filter (fun rxn => negb (String.eqb rxn obj)) new_rxn_ids)%list
  /\ forall r, In r rxns -> get_by_id (reactions universal) (rxn_id r) = Ok r.
Proof.
  unfold new_rxns, mbind, result_bind.
  destruct (step =? 1)%Z.
  - destruct (get_by_id (reactions universal) obj) as [r|] eqn:Hr;
      [|discriminate].
    cbn. destruct (collect _ _) as [ys|] eqn:Hc; [|discriminate].
    intros [= <-]. apply collect_get in Hc as [Hids Hall].
    destruct (get_by_id_ok _ _ _ Hr) as [_ Hid].
    split; [cbn; congruence|].
    intros r' [<-|Hin]; [congruence|now apply Hall].
  - cbn. destruct (collect _ _) as [ys|] eqn:Hc; [|discriminate].
    intros [= <-]. now apply collect_get in Hc.
Qed.

Lemma add_reactions_ok rs m x m' :
  add_reactions rs m = (Ok x, m') ->
  reactions m'
  = (reactions m
     ++ List.filter (fun r => negb (has_id (reactions m) (rxn_id r))) rs)%list.
Proof.
  unfold add_reactions. destruct (unique_ids _); [|discriminate].
  intros [= _ <-]. now rewrite record_reactions.
Qed.

(** C5, as the code has it: a call that returns has looked up in the
    universal network the objective reaction (step 1 only, whether or not
    it is among [new_rxn_ids]) and every id of [new_rxn_ids] other than the
    objective, and has appended those copies to the model, except that a
    copy whose id the model already has is left out and the model keeps its
    own reaction of that id; after that, every extracellular metabolite of
    the resulting model without a reaction ["EX_" ++ id] has received one,
    with bounds (-1000.0, 1000.0); the reactions the model had are all still
    there, unchanged and in place. *)
Theorem gapfill_model_spec
    (fec : Model -> result string) (universal : Model)
    (new_rxn_ids : list string) (obj : string) (step : Z)
    (model model' : Model) :
  gapfill_model fec universal new_rxn_ids obj step model = (Ok tt, model') ->
  exists rxns exchanges,
    let added :=
      List.filter (fun r => negb (has_id (reactions model) (rxn_id r))) rxns in
    new_rxns universal new_rxn_ids obj step = Ok rxns
    /\ List.map rxn_id rxns
       = ((if (step =? 1)%Z then [obj] else [])
          ++ List.filter (fun rxn => negb (String.eqb rxn obj)) new_rxn_ids)%list
    /\ (forall r, In r rxns ->
          get_by_id (reactions universal) (rxn_id r) = Ok r)
    /\ reactions model' = (reactions model ++ added ++ exchanges)%list
    /\ (forall e, In e exchanges ->
          exists cpd,
            In cpd (metabolites model')
            /\ compartment cpd = "extracellular"%string
            /\ rxn_id e = ("EX_" ++ met_id cpd)%string
            /\ lower_bound e = -1000 /\ upper_bound e = 1000
            /\ rxn_metabolites e = [(cpd, -1)]
            /\ rxn_name e = (met_name cpd ++ " exchange")%string)
    /\ (forall cpd, In cpd (metabolites model') ->
          compartment cpd = "extracellular"%string ->
          has_id (reactions model') ("EX_" ++ met_id cpd) = true)
    /\ (forall cpd, In cpd (metabolites model') ->
          compartment cpd = "extracellular"%string ->
          has_id (reactions model ++ added) ("EX_" ++ met_id cpd) = false ->
          exists e, In e exchanges
                    /\ rxn_id e = ("EX_" ++ met_id cpd)%string).
Proof.
  unfold gapfill_model. intros H.
  tx_step H as rxns m0 Hnew. apply lift_ok in Hnew as [Hnew ->].
  tx_step H as x1 m1 Hadd.
  tx_step H as mm m2 Hget. apply get_ok in Hget as [-> ->].
  tx_step H as o m3 Ho. apply lift_ok in Ho as [_ ->].
  tx_step H as x2 m4 Hobj.
  tx_step H as mm m5 Hget. apply get_ok in Hget as [-> ->].
  apply add_reactions_ok in Hadd.
  apply assign_objective_ok in Hobj as (R4 & _ & _).
  apply exchange_loop in H as (M & exs & R & He & Hall & Hcreated);
    [|auto].
  rewrite <- M in He, Hall, Hcreated.
  rewrite R4, Hadd in R, Hcreated.
  destruct (new_rxns_ok _ _ _ _ _ Hnew) as [Hids Hcopies].
  exists rxns, exs. cbv zeta.
  split; [exact Hnew|]. split; [exact Hids|]. split; [exact Hcopies|].
  split; [now rewrite R, app_assoc|].
  split; [exact He|]. split; [exact Hall|exact Hcreated].
Qed.

Lemma gapfill_model_spec_witness :
  exists model',
    gapfill_model Examples.toy_external Examples.reference_with_import
      ["rxn_import_c"; "biomass_GmPos"]%string "biomass_GmPos" 1 Examples.draft
    = (Ok tt, model')
    /\ has_id (reactions model') "EX_cpd_C_e" = true
    /\ List.map rxn_id (reactions model')
       = ["rxn_uptake_c"; "biomass_GmPos"; "rxn_import_c"; "EX_cpd_C_e"]%string.
Proof.
  destruct (gapfill_model Examples.toy_external Examples.reference_with_import
              ["rxn_import_c"; "biomass_GmPos"]%string "biomass_GmPos" 1 Examples.draft)
    as [[[]|e] model'] eqn:H; [|vm_compute in H; discriminate].
  exists model'. split; [reflexivity|].
  destruct (gapfill_model_spec _ _ _ _ _ _ _ H)
    as (rxns & exs & _ & _ & _ & _ & _ & Hall & _).
  split.
  - apply (Hall Examples.cpd_C); [|reflexivity].
    vm_compute in H. injection H as <-. cbn. auto.
  - vm_compute in H. injection H as <-. reflexivity.
Defined.

(** C5 fails at this input: the curated model has its own biomass
    reaction (at least one unit of flux); step 1 looks up the universal
    biomass reaction (no lower limit), but the model already has that id,
    so no copy is added and the model keeps its own. *)
Lemma gapfill_model_keeps_own_objective :
  exists model',
    gapfill_model Examples.toy_external Examples.reference [] "biomass_GmPos" 1 Examples.curated
    = (Ok tt, model')
    /\ get_by_id (reactions Examples.reference) "biomass_GmPos"
       = Ok (Examples.biomass 0)
    /\ reactions model' = reactions Examples.curated
    /\ ~ In (Examples.biomass 0) (reactions model').
Proof.
  eexists. split; [vm_compute; reflexivity|].
  split; [reflexivity|]. split; [reflexivity|].
  intros [H|[H|[]]].
  - apply (f_equal rxn_id) in H. discriminate.
  - apply (f_equal (fun r => lower_bound r <? 1)) in H. vm_compute in H.
    discriminate.
Qed.

End GapfillFacts.

(** ** Identifiers: what sanitising guarantees *)

Module SbmlIdFacts.
Import Utils Text.

Lemma all_word_run s : all_word s = true -> word_run_to_end s = true.
Proof.
  induction s as [|c s IH]; cbn; [reflexivity|].
  intros H. apply andb_true_iff in H as [-> H]. auto.
Qed.

Lemma sub_nonword_runs_word b s : all_word (sub_nonword_runs b s) = true.
Proof.
  revert b. induction s as [|c s IH]; intros b; cbn; [reflexivity|].
  destruct (is_word c) eqn:E; cbn.
  - now rewrite E, IH.
  - destruct b; [apply IH|]. cbn. apply IH.
Qed.

Lemma sub_nonword_runs_id b s :
  all_word s = true -> sub_nonword_runs b s = s.
Proof.
  revert b. induction s as [|c s IH]; intros b; cbn; [reflexivity|].
  intros H. apply andb_true_iff in H as [-> H]. now rewrite IH.
Qed.

Lemma word_cases c :
  is_word c = true -> is_digit c = false ->
  is_letter c || is_underscore c = true.
Proof.
  unfold is_word.
  destruct (is_letter c), (is_underscore c), (is_digit c); cbn; congruence.
Qed.

Lemma digit_is_word c : is_digit c = true -> is_word c = true.
Proof. unfold is_word. intros ->. now rewrite orb_true_r. Qed.

Lemma digit_not_first c :
  is_digit c = true -> is_letter c || is_underscore c = false.
Proof.
  destruct c as [[] [] [] [] [] [] [] []]; vm_compute; congruence.
Qed.

(** The first character of a sanitised id is never a digit. *)
Lemma sanitize_first s c r :
  sanitize_sbml_id s = String c r -> is_digit c = false.
Proof.
  unfold sanitize_sbml_id. destruct s as [|a s]; [discriminate|].
  destruct (is_digit a) eqn:D.
  - cbn. intros [= <- _]. reflexivity.
  - cbn. destruct (is_word a).
    + intros [= <- _]. exact D.
    + intros [= <- _]. reflexivity.
Qed.

Lemma sanitize_word s : all_word (sanitize_sbml_id s) = true.
Proof. unfold sanitize_sbml_id. apply sub_nonword_runs_word. Qed.

Lemma sanitize_nonempty_valid s :
  s <> EmptyString -> is_valid_sbml_id (sanitize_sbml_id s) = true.
Proof.
  intros Hne. destruct s as [|c s]; [congruence|].
  pose proof (sanitize_word (String c s)) as W.
  pose proof (sanitize_first (String c s)) as F.
  destruct (sanitize_sbml_id (String c s)) as [|a r] eqn:E.
  - exfalso. revert E. unfold sanitize_sbml_id.
    destruct (is_digit c); cbn; [discriminate|].
    destruct (is_word c); discriminate.
  - cbn in W. apply andb_true_iff in W as [Wa Wr].
    cbn. rewrite (word_cases a Wa (F a r eq_refl)). cbn.
    now apply all_word_run.
Qed.

(** X1: sanitising any non-empty identifier yields an identifier that
    [is_valid_sbml_id] accepts; the empty identifier stays empty, and is the
    only input whose result is rejected. *)
Theorem sanitize_sbml_id_valid (s : string) :
  ascii_text s = true ->
  (is_valid_sbml_id (sanitize_sbml_id s) = true <-> s <> EmptyString).
Proof.
  intros _. split.
  - intros H ->. discriminate.
  - apply sanitize_nonempty_valid.
Qed.

Lemma sanitize_sbml_id_valid_witness :
  is_valid_sbml_id (sanitize_sbml_id "WP_004111608.1") = true.
Proof.
  apply (sanitize_sbml_id_valid "WP_004111608.1"); [reflexivity|discriminate].
Defined.

Lemma sanitize_keeps s :
  all_word s = true ->
  (forall c rest, s = String c rest -> is_digit c = false) ->
  sanitize_sbml_id s = s.
Proof.
  intros W F. unfold sanitize_sbml_id. destruct s as [|c s]; [reflexivity|].
  rewrite (F c s eq_refl). now apply sub_nonword_runs_id.
Qed.

Lemma valid_first s :
  is_valid_sbml_id s = true ->
  forall c rest, s = String c rest -> is_digit c = false.
Proof.
  intros H c rest ->. cbn in H. apply andb_true_iff in H as [H _].
  destruct (is_digit c) eqn:D; [|reflexivity].
  now rewrite (digit_not_first c D) in H.
Qed.

Lemma all_word_app s t :
  all_word (s ++ t) = all_word s && all_word t.
Proof.
  induction s as [|c s IH]; simpl; [reflexivity|].
  now rewrite IH, andb_assoc.
Qed.

Lemma word_run_newline s :
  all_word s = true -> word_run_to_end (s ++ newline) = true.
Proof.
  induction s as [|c s IH]; [reflexivity|].
  simpl. intros H. apply andb_true_iff in H as [-> H]. auto.
Qed.

Lemma sub_nonword_runs_newline s :
  all_word s = true ->
  sub_nonword_runs false (s ++ newline) = s ++ underscore.
Proof.
  induction s as [|c s IH]; [reflexivity|].
  simpl. intros H. apply andb_true_iff in H as [-> H]. now rewrite IH.
Qed.

(** X2: [sanitize_sbml_id] leaves an ASCII identifier unchanged
    exactly when it consists of word characters only and does not start
    with a digit. *)
Theorem sanitize_sbml_id_fixed_points (s : string) :
  ascii_text s = true ->
  (sanitize_sbml_id s = s <->
   all_word s = true
   /\ forall c rest, s = String c rest -> is_digit c = false).
Proof.
  intros _. split.
  - intros E. split.
    + rewrite <- E. apply sanitize_word.
    + intros c rest ->. eapply sanitize_first, E.
  - intros [W F]. now apply sanitize_keeps.
Qed.

Lemma sanitize_sbml_id_fixed_points_witness :
  sanitize_sbml_id "rxn00001_c" = "rxn00001_c"
  /\ sanitize_sbml_id "3-atp" <> "3-atp"
  /\ sanitize_sbml_id "eco:b0002" <> "eco:b0002".
Proof.
  split; [|split].
  - apply (sanitize_sbml_id_fixed_points "rxn00001_c"); [reflexivity|].
    split; [reflexivity|]. intros c rest [= <- _]. reflexivity.
  - intros E.
    apply (sanitize_sbml_id_fixed_points "3-atp") in E as [_ F];
      [|reflexivity].
    discriminate (F _ _ eq_refl).
  - intros E.
    apply (sanitize_sbml_id_fixed_points "eco:b0002") in E as [W _];
      [|reflexivity].
    discriminate W.
Defined.

(** X3: [sanitize_sbml_id] is idempotent: sanitising a sanitised
    identifier changes nothing. *)
Theorem sanitize_sbml_id_idempotent (s : string) :
  sanitize_sbml_id (sanitize_sbml_id s) = sanitize_sbml_id s.
Proof.
  apply sanitize_keeps; [apply sanitize_word|].
  intros c rest E. eapply sanitize_first, E.
Qed.

(** X4: the two functions disagree on a trailing newline.  For a valid
    identifier [s] made of word characters, which sanitising leaves alone,
    [is_valid_sbml_id] also accepts [s] followed by a newline (Python's [$]
    matches before a final newline), while [sanitize_sbml_id] rewrites that
    identifier, turning the newline into an underscore. *)
Theorem is_valid_sbml_id_trailing_newline (s : string) :
  is_valid_sbml_id s = true -> all_word s = true ->
  sanitize_sbml_id s = s
  /\ is_valid_sbml_id (s ++ newline) = true
  /\ sanitize_sbml_id (s ++ newline) = s ++ underscore
  /\ sanitize_sbml_id (s ++ newline) <> s ++ newline.
Proof.
  intros V W.
  assert (S : sanitize_sbml_id (s ++ newline) = s ++ underscore).
  { destruct s as [|c s]; [discriminate|].
    cbn in V, W. apply andb_true_iff in V as [V1 V2].
    apply andb_true_iff in W as [W1 W2].
    destruct (is_digit c) eqn:D; [now rewrite (digit_not_first c D) in V1|].
    change (String c s ++ newline) with (String c (s ++ newline)).
    change (String c s ++ underscore) with (String c (s ++ underscore)).
    unfold sanitize_sbml_id. rewrite D.
    simpl. rewrite W1. f_equal. now apply sub_nonword_runs_newline. }
  split; [apply sanitize_keeps; [assumption|now apply valid_first]|].
  split.
  { destruct s as [|c s]; [discriminate|].
    cbn in V, W. apply andb_true_iff in V as [V1 V2].
    apply andb_true_iff in W as [W1 W2].
    change (String c s ++ newline) with (String c (s ++ newline)).
    simpl. rewrite V1. simpl. now apply word_run_newline. }
  split; [exact S|].
  intros E. pose proof (sanitize_word (s ++ newline)) as Hw.
  rewrite E, all_word_app in Hw. apply andb_true_iff in Hw as [_ Hw].
  discriminate.
Qed.

Lemma is_valid_sbml_id_trailing_newline_witness :
  is_valid_sbml_id ("rxn00001_c" ++ newline) = true
  /\ sanitize_sbml_id ("rxn00001_c" ++ newline) = "rxn00001_c_".
Proof.
  destruct (is_valid_sbml_id_trailing_newline "rxn00001_c" eq_refl eq_refl)
    as (_ & V & S & _).
  split; [exact V|exact S].
Defined.
End SbmlIdFacts.

(** ** Reading the BLAST output *)

Module HitsFacts.

Import Cobra Funcs Utils Text Hits TxFacts SbmlIdFacts.

Lemma split_aux_nonempty s : forall cur t,
  In t (split_aux cur s) -> t <> EmptyString.
Proof.
  induction s as [|c s IH]; intros cur t; cbn.
  - destruct (String.eqb_spec cur EmptyString); [intros []|].
    intros [<-|[]]. assumption.
  - destruct (is_space c).
    + destruct (String.eqb_spec cur EmptyString); [apply IH|].
      intros [<-|H]; [assumption|]. eapply IH, H.
    + apply IH.
Qed.

Lemma blank_split s : blank s = true -> str_split s = [].
Proof.
  unfold str_split. induction s as [|c s IH]; cbn; [reflexivity|].
  intros H. apply andb_true_iff in H as [-> H]. auto.
Qed.

Lemma read_hit_ok line gene :
  read_hit line = Ok gene ->
  exists query_id kegg_id rest,
    str_split line = query_id :: kegg_id :: rest
    /\ gene = {| gene_id := sanitize_sbml_id query_id;
                 kegg_genes := Some kegg_id |}.
Proof.
  unfold read_hit. destruct (str_split line) as [|q [|k rest]];
    try discriminate.
  intros [= <-]. eauto.
Qed.

Lemma read_hit_cases line :
  ((length (str_split line) < 2)%nat /\ read_hit line = Raise ValueError)
  \/ ((2 <= length (str_split line))%nat /\ exists gene, read_hit line = Ok gene).
Proof.
  unfold read_hit. destruct (str_split line) as [|q [|k rest]]; cbn.
  - left. split; [lia|reflexivity].
  - left. split; [lia|reflexivity].
  - right. split; [lia|eauto].
Qed.

Lemma collect_Forall2 {A B : Type} (f : A -> result B) xs ys :
  collect f xs = Ok ys -> Forall2 (fun x y => f x = Ok y) xs ys.
Proof.
  revert ys. induction xs as [|x xs IH]; intros ys; cbn.
  - intros [= <-]. constructor.
  - unfold mbind, result_bind. destruct (f x) as [y|] eqn:E; [|discriminate].
    destruct (collect f xs) as [ys'|]; [|discriminate].
    intros [= <-]. constructor; auto.
Qed.

(** X5: when [read_blast] returns, it returns one gene per line, in line
    order; the gene's id is the sanitised first field of the line, its
    ["kegg.genes"] annotation is the second field, further fields are
    ignored, and the id is a valid SBML id. *)
Theorem read_blast_genes (lines : list string) (genes : list Gene) :
  Forall (fun line => ascii_text line = true) lines ->
  read_blast lines = Ok genes ->
  Forall2
    (fun line gene =>
       exists query_id kegg_id rest,
         str_split line = query_id :: kegg_id :: rest
         /\ gene_id gene = sanitize_sbml_id query_id
         /\ kegg_genes gene = Some kegg_id
         /\ is_valid_sbml_id (gene_id gene) = true)
    lines genes.
Proof.
  intros _ H. apply collect_Forall2 in H.
  eapply Forall2_impl; [exact H|]. cbn.
  intros line gene Hg. apply read_hit_ok in Hg as (q & k & rest & Hs & ->).
  exists q, k, rest. cbn. repeat split; auto.
  apply sanitize_nonempty_valid.
  apply (split_aux_nonempty line EmptyString). unfold str_split in Hs.
  rewrite Hs. now left.
Qed.

Lemma read_blast_genes_witness :
  exists genes,
    read_blast Samples.blast_lines = Ok genes
    /\ Forall (fun g => is_valid_sbml_id (gene_id g) = true) genes
    /\ List.map gene_id genes = ["WP_004111608_1"; "_3_atp"].
Proof.
  destruct (read_blast Samples.blast_lines) as [genes|e] eqn:H;
    [|vm_compute in H; discriminate].
  exists genes. split; [reflexivity|].
  assert (Ha : Forall (fun line => ascii_text line = true)
                 Samples.blast_lines) by (repeat constructor).
  pose proof (read_blast_genes _ _ Ha H) as F.
  split.
  - clear H Ha.
    induction F as [|l g ls gs (q & k & rest & _ & _ & _ & V) _ IH];
      constructor; auto.
  - vm_compute in H. injection H as <-. reflexivity.
Defined.

(** X6: on ASCII text, [read_blast] raises [ValueError] exactly when
    some line has fewer than two white-space separated fields.  A line of
    white space only (an empty last line, say) has no field at all, so it
    makes the call fail. *)
Theorem read_blast_short_line (lines : list string) :
  Forall (fun line => ascii_text line = true) lines ->
  (read_blast lines = Raise ValueError <->
   Exists (fun line => (length (str_split line) < 2)%nat) lines)
  /\ (forall line, In line lines -> blank line = true ->
        str_split line = [] /\ read_blast lines = Raise ValueError).
Proof.
  intros _.
  assert (Hiff : read_blast lines = Raise ValueError <->
    Exists (fun line => (length (str_split line) < 2)%nat) lines).
  { unfold read_blast. induction lines as [|l ls IH]; cbn.
    + split; [discriminate|]. intros H. inversion H.
    + unfold mbind, result_bind.
      destruct (read_hit_cases l) as [[Hlen ->]|[Hlen [g ->]]].
      * split; [|reflexivity]. intros _. now constructor.
      * destruct (collect read_hit ls) as [ys|e].
        -- split; [discriminate|].
           intros H. inversion H as [? ? H1|? ? H1]; subst.
           ++ lia.
           ++ apply IH in H1. discriminate.
        -- split.
           ++ intros [= ->]. apply Exists_cons_tl. now apply IH.
           ++ intros H. inversion H as [? ? H1|? ? H1]; subst; [lia|].
              apply IH in H1. exact H1. }
  split; [exact Hiff|].
  intros line Hin Hb. pose proof (blank_split _ Hb) as Hs.
  split; [exact Hs|]. apply Hiff. apply List.Exists_exists.
  exists line. split; [exact Hin|]. rewrite Hs. cbn. lia.
Qed.

Lemma read_blast_short_line_witness :
  read_blast (Samples.blast_lines ++ [newline]) = Raise ValueError
  /\ (exists genes, read_blast Samples.blast_lines = Ok genes).
Proof.
  split.
  - apply (read_blast_short_line (Samples.blast_lines ++ [newline]))
      with (line := newline).
    + repeat constructor.
    + apply in_or_app. right. now left.
    + reflexivity.
  - destruct (read_blast Samples.blast_lines) as [genes|e] eqn:H;
      [|vm_compute in H; discriminate].
    now exists genes.
Defined.

End HitsFacts.

(** ** From genes to reactions *)

Module RxnDbFacts.

Import Cobra Funcs Utils Text Hits TxFacts SbmlIdFacts HitsFacts.

Lemma rxn_db_append_keys k g db k' :
  In k' (List.map fst (rxn_db_append k g db)) <->
  In k' (List.map fst db) \/ k' = k.
Proof.
  induction db as [|[k0 gs] db IH]; cbn.
  - intuition.
  - destruct (String.eqb_spec k0 k) as [->|Hne]; cbn.
    + intuition.
    + rewrite IH. intuition.
Qed.

Lemma rxn_db_append_wf k g db : wf db -> wf (rxn_db_append k g db).
Proof.
  intros [Hnd Hne]. induction db as [|[k0 gs] db IH]; cbn.
  - split; [repeat constructor; intros H; inversion H|].
    repeat constructor. discriminate.
  - cbn in Hnd. apply NoDup_cons in Hnd as [Hk0 Hnd].
    apply Forall_cons in Hne as [Hgs Hne].
    destruct (String.eqb_spec k0 k) as [->|Hk]; cbn.
    + split; [now apply NoDup_cons|].
      constructor; [|assumption]. cbn. now destruct gs.
    + destruct (IH Hnd Hne) as [IH1 IH2]. split.
      * apply NoDup_cons. split; [|assumption].
        rewrite list_elem_of_In, rxn_db_append_keys.
        rewrite list_elem_of_In in Hk0. intuition.
      * now constructor.
Qed.

Lemma rxn_db_get_append k g db k' :
  rxn_db_get k' (rxn_db_append k g db)
  = if String.eqb k k' then (rxn_db_get k db ++ [g])%list
    else rxn_db_get k' db.
Proof.
  unfold rxn_db_get. induction db as [|[k0 gs] db IH]; cbn.
  - now destruct (String.eqb k k').
  - destruct (String.eqb_spec k0 k) as [->|Hk]; cbn.
    + now destruct (String.eqb k k').
    + destruct (String.eqb_spec k0 k') as [->|Hk'].
      * destruct (String.eqb_spec k k'); [congruence|reflexivity].
      * exact IH.
Qed.

Lemma rxn_db_get_key k db :
  rxn_db_get k db <> [] -> In k (List.map fst db).
Proof.
  unfold rxn_db_get. destruct (List.find _ _) as [[k0 gs]|] eqn:E; [|congruence].
  intros _. apply find_some in E as [H1 H2]. cbn in H2.
  apply String.eqb_eq in H2 as <-. apply in_map_iff. now exists (k0, gs).
Qed.

Lemma rxn_db_key_get k db :
  wf db -> In k (List.map fst db) -> rxn_db_get k db <> [].
Proof.
  intros [_ Hne] Hin. unfold rxn_db_get.
  destruct (List.find _ _) as [[k0 gs]|] eqn:E.
  - apply find_some in E as [H1 _]. rewrite Forall_forall in Hne.
    apply (Hne (k0, gs)). now apply list_elem_of_In.
  - apply in_map_iff in Hin as ([k0 gs] & <- & Hin).
    pose proof (find_none _ _ E _ Hin) as F. cbn in F.
    now rewrite String.eqb_refl in F.
Qed.

Lemma add_rxns_get g k g' rxns : forall db,
  In g' (rxn_db_get k
           (fold_left (fun db rxn => rxn_db_append (rxn ++ "_c") g db) rxns db))
  <-> In g' (rxn_db_get k db)
      \/ (g' = g /\ exists rxn, In rxn rxns /\ k = rxn ++ "_c").
Proof.
  induction rxns as [|rxn rxns IH]; intros db; cbn.
  - split; [auto|]. intros [H|(_ & rxn & [] & _)]. exact H.
  - rewrite IH, rxn_db_get_append.
    destruct (String.eqb_spec (rxn ++ "_c") k) as [<-|Hk].
    + rewrite in_app_iff. cbn. split.
      * intros [[H|[<-|[]]]|(-> & r & Hr & E)]; eauto 8.
      * intros [H|(-> & r & [<-|Hr] & E)]; eauto 8.
    + split.
      * intros [H|(-> & r & Hr & E)]; eauto 8.
      * intros [H|(-> & r & [<-|Hr] & E)]; eauto 8. congruence.
Qed.

Lemma add_rxns_wf g rxns : forall db,
  wf db ->
  wf (fold_left (fun db rxn => rxn_db_append (rxn ++ "_c") g db) rxns db).
Proof.
  induction rxns as [|rxn rxns IH]; intros db H; cbn; [assumption|].
  apply IH. now apply rxn_db_append_wf.
Qed.

Lemma add_gene_get gm kegg g db k g' :
  In g' (rxn_db_get k (add_gene gm kegg g db))
  <-> In g' (rxn_db_get k db)
      \/ (g' = g /\ exists rxn,
            In rxn (default [] (gm !! kegg)) /\ k = rxn ++ "_c").
Proof. apply add_rxns_get. Qed.

Lemma add_gene_wf gm kegg g db : wf db -> wf (add_gene gm kegg g db).
Proof. apply add_rxns_wf. Qed.

Lemma add_hits_inv gm hits : forall db db',
  add_hits gm hits db = Ok db' ->
  (wf db -> wf db')
  /\ forall k g,
       In g (rxn_db_get k db') <->
       In g (rxn_db_get k db)
       \/ (In g hits /\ exists kegg rxn,
             kegg_genes g = Some kegg
             /\ In rxn (default [] (gm !! kegg)) /\ k = rxn ++ "_c").
Proof.
  induction hits as [|h hits IH]; intros db db'; cbn.
  - intros [= <-]. split; [auto|]. intros k g. split; [auto|].
    intros [H|([] & _)]. exact H.
  - unfold mbind, result_bind, annotation_kegg.
    destruct (kegg_genes h) as [kegg|] eqn:Hk; [|discriminate].
    intros H. apply IH in H as [Hwf Hget]. split.
    + intros Hdb. apply Hwf. now apply add_gene_wf.
    + intros k g. rewrite Hget, add_gene_get. split.
      * intros [[H|(-> & rxn & Hr & E)]|(Hin & kg & rxn & Hg & Hr & E)];
          eauto 10.
      * intros [H|([<-|Hin] & kg & rxn & Hg & Hr & E)]; eauto 10.
        left. right. split; [reflexivity|]. exists rxn.
        assert (kg = kegg) as <- by congruence. auto.
Qed.

Lemma add_hits_total gm hits : forall db,
  Forall (fun g => kegg_genes g <> None) hits ->
  exists db', add_hits gm hits db = Ok db'.
Proof.
  induction hits as [|h hits IH]; intros db Hall; cbn; [eauto|].
  apply Forall_cons in Hall as [Hh Hall].
  unfold mbind, result_bind, annotation_kegg.
  destruct (kegg_genes h); [|congruence]. now apply IH.
Qed.

Lemma collect_kegg_total hits :
  Forall (fun g => kegg_genes g <> None) hits ->
  exists ks, collect annotation_kegg hits = Ok ks.
Proof.
  induction hits as [|h hits IH]; intros Hall; cbn; [eauto|].
  apply Forall_cons in Hall as [Hh Hall].
  destruct (IH Hall) as (ks & Hks).
  unfold mbind, result_bind. rewrite Hks. unfold annotation_kegg.
  destruct (kegg_genes h); [eauto|congruence].
Qed.

Lemma collect_kegg_In hits ks kegg :
  collect annotation_kegg hits = Ok ks ->
  (In kegg ks <-> exists h, In h hits /\ kegg_genes h = Some kegg).
Proof.
  revert ks. induction hits as [|h hits IH]; intros ks; cbn.
  - intros [= <-]. split; [intros []|intros (h & [] & _)].
  - unfold mbind, result_bind.
    destruct (collect annotation_kegg hits) as [ks'|] eqn:Hc.
    2:{ destruct (annotation_kegg h); discriminate. }
    unfold annotation_kegg.
    destruct (kegg_genes h) as [k0|] eqn:Hk; [|discriminate].
    intros [= <-]. cbn. rewrite (IH ks' eq_refl). split.
    + intros [<-|(h' & Hin & E)]; eauto.
    + intros (h' & [<-|Hin] & E); [left; congruence|eauto].
Qed.

Lemma add_org_inv gm keggs : forall db,
  let db' :=
    fold_left (fun db kegg_gene =>
                 add_gene gm kegg_gene (org_gene kegg_gene) db) keggs db in
  (wf db -> wf db')
  /\ forall k g,
       In g (rxn_db_get k db') <->
       In g (rxn_db_get k db)
       \/ exists kegg rxn,
            In kegg keggs /\ g = org_gene kegg
            /\ In rxn (default [] (gm !! kegg)) /\ k = rxn ++ "_c".
Proof.
  induction keggs as [|kg keggs IH]; intros db; cbn.
  - split; [auto|]. intros k g. split; [auto|].
    intros [H|(? & ? & [] & _)]. exact H.
  - destruct (IH (add_gene gm kg (org_gene kg) db)) as [Hwf Hget]. split.
    + intros H. apply Hwf. now apply add_gene_wf.
    + intros k g. rewrite Hget, add_gene_get. split.
      * intros [[H|(-> & rxn & Hr & E)]|(kegg & rxn & Hin & Hg & Hr & E)];
          eauto 10.
      * intros [H|(kegg & rxn & [<-|Hin] & Hg & Hr & E)]; eauto 10.
Qed.

Lemma get_org_rxns_spec gm org kegg :
  kegg ∈ _get_org_rxns gm org <->
  is_Some (gm !! kegg) /\ before_colon kegg = org.
Proof.
  unfold _get_org_rxns. rewrite elem_of_list_to_set, list_elem_of_In.
  rewrite filter_In, in_map_iff. split.
  - intros (([k v] & <- & Hin) & E). cbn in *.
    apply list_elem_of_In, elem_of_map_to_list in Hin.
    split; [eauto|]. now apply String.eqb_eq.
  - intros ([v Hv] & <-). split; [|apply String.eqb_refl].
    exists (kegg, v). split; [reflexivity|].
    now apply list_elem_of_In, elem_of_map_to_list.
Qed.

Lemma wf_nil : wf [].
Proof. split; constructor. Qed.

(** The full account of what [genes_to_rxns] returns. *)
Lemma genes_to_rxns_inv set_order hits gm organism db :
  (forall (S : gset string) x, In x (set_order S) <-> x ∈ S) ->
  genes_to_rxns set_order hits gm organism = Ok db ->
  wf db
  /\ forall k g,
       In g (rxn_db_get k db) <->
       exists rxn kegg,
         k = rxn ++ "_c" /\ In rxn (default [] (gm !! kegg))
         /\ ((In g hits /\ kegg_genes g = Some kegg)
             \/ (g = org_gene kegg
                 /\ organism = Some (before_colon kegg)
                 /\ forall h, In h hits -> kegg_genes h <> Some kegg)).
Proof.
  intros Hord. unfold genes_to_rxns.
  intros H. apply BuildFacts.result_bind_ok in H as (og & Hog & H).
  apply BuildFacts.result_bind_ok in H as (db1 & Hdb1 & H).
  injection H as <-.
  apply add_hits_inv in Hdb1 as [Hwf1 Hget1].
  destruct (add_org_inv gm (set_order og) db1) as [Hwf2 Hget2].
  cbv zeta in Hwf2, Hget2.
  split; [apply Hwf2, Hwf1, wf_nil|].
  assert (Hmem : forall kegg,
    In kegg (set_order og) <->
    is_Some (gm !! kegg) /\ organism = Some (before_colon kegg)
    /\ forall h, In h hits -> kegg_genes h <> Some kegg).
  { intros kegg. rewrite Hord. destruct organism as [org|].
    - apply BuildFacts.result_bind_ok in Hog as (ks & Hks & Hog).
      injection Hog as <-.
      rewrite elem_of_difference, get_org_rxns_spec, elem_of_list_to_set.
      rewrite list_elem_of_In, (collect_kegg_In _ _ kegg Hks). split.
      + intros ((Hs & <-) & Hno). repeat split; auto.
        intros h Hin E. apply Hno. eauto.
      + intros (Hs & [= ->] & Hno). repeat split; auto.
        intros (h & Hin & E). eapply Hno; eauto.
    - injection Hog as <-. split.
      + intros Hx. now apply not_elem_of_empty in Hx.
      + intros (_ & [=] & _). }
  intros k g. rewrite Hget2, Hget1. cbn [rxn_db_get List.find]. split.
  - intros [[[]|(Hin & kegg & rxn & Hg & Hr & E)]
           |(kegg & rxn & Hin & Hg & Hr & E)].
    + exists rxn, kegg. auto.
    + exists rxn, kegg. apply Hmem in Hin as (_ & Ho & Hno). auto 10.
  - intros (rxn & kegg & E & Hr & [(Hin & Hg)|(Hg & Ho & Hno)]).
    + left. right. eauto 10.
    + right. exists kegg, rxn. split; [|auto]. apply Hmem.
      split; [|auto]. destruct (gm !! kegg); [eauto|destruct Hr].
Qed.

End RxnDbFacts.

(** ** The draft pipeline *)

Module DraftFacts.

Import Cobra Funcs Utils Text Hits TxFacts SbmlIdFacts HitsFacts RxnDbFacts.
Import CreateModelFacts.

Lemma word_run_before_colon s :
  word_run_to_end s = true -> before_colon s = s.
Proof.
  induction s as [|c s IH]; [reflexivity|].
  cbn [word_run_to_end before_colon]. destruct (is_word c) eqn:W.
  - intros H. destruct (Ascii.eqb_spec c ":"%char) as [E|_].
    + subst c. vm_compute in W. discriminate.
    + now rewrite IH.
  - intros H. apply String.eqb_eq in H. injection H as -> ->. reflexivity.
Qed.

Lemma colon_not_valid s : before_colon s <> s -> is_valid_sbml_id s = false.
Proof.
  intros H. destruct (is_valid_sbml_id s) eqn:V; [|reflexivity].
  exfalso. apply H. destruct s as [|c s]; [reflexivity|].
  cbn in V. apply andb_true_iff in V as [V1 V2].
  cbn. destruct (Ascii.eqb_spec c ":"%char) as [E|_].
  - subst c. vm_compute in V1. discriminate.
  - now rewrite word_run_before_colon.
Qed.

Lemma before_colon_prefix s : before_colon s = s \/ before_colon s <> s.
Proof. destruct (String.eqb_spec (before_colon s) s); auto. Qed.

(** X7: the table built by [genes_to_rxns] has distinct keys, each with
    at least one gene.  A gene is listed under a key exactly when the key
    is a reaction of [gene_modelseed] with ["_c"] appended, and either the
    gene is a BLAST hit whose KEGG id maps to that reaction, or an organism
    was given, the gene was made from a KEGG id of that organism (the text
    before its first colon) which maps to the reaction, and no BLAST hit
    carries that KEGG id.  This holds in whatever order Python walks the
    set of organism genes. *)
Theorem genes_to_rxns_spec
    (set_order : gset string -> list string) (kegg_hits : list Gene)
    (gene_modelseed : gmap string (list string)) (organism : option string)
    (rxn_db : list (string * list Gene)) :
  (forall (S : gset string) x, In x (set_order S) <-> x ∈ S) ->
  genes_to_rxns set_order kegg_hits gene_modelseed organism = Ok rxn_db ->
  NoDup (List.map fst rxn_db)
  /\ (forall k, In k (List.map fst rxn_db) <-> rxn_db_get k rxn_db <> [])
  /\ (forall k gene,
        In gene (rxn_db_get k rxn_db) <->
        exists rxn kegg,
          k = rxn ++ "_c"
          /\ In rxn (default [] (gene_modelseed !! kegg))
          /\ ((In gene kegg_hits /\ kegg_genes gene = Some kegg)
              \/ (gene = org_gene kegg
                  /\ organism = Some (before_colon kegg)
                  /\ forall h, In h kegg_hits ->
                               kegg_genes h <> Some kegg))).
Proof.
  intros Hord H.
  destruct (genes_to_rxns_inv _ _ _ _ _ Hord H) as [Hwf Hget].
  split; [apply Hwf|]. split; [|exact Hget].
  intros k. split; [now apply rxn_db_key_get|apply rxn_db_get_key].
Qed.

Lemma python_set_order_ok (S : gset string) x :
  In x (Samples.python_set_order S) <-> x ∈ S.
Proof.
  unfold Samples.python_set_order. rewrite <- list_elem_of_In.
  apply elem_of_elements.
Qed.

Lemma genes_to_rxns_spec_witness :
  exists hits rxn_db,
    read_blast Samples.blast_lines = Ok hits
    /\ genes_to_rxns Samples.python_set_order hits Samples.gene_modelseed
         (Some "eco") = Ok rxn_db
    /\ List.map fst rxn_db = ["rxn_uptake_c"; "rxn99999_c"; "EX_cpd_B_e_c"]
    /\ NoDup (List.map fst rxn_db)
    /\ List.map gene_id (rxn_db_get "rxn_uptake_c" rxn_db)
       = ["WP_004111608_1"; "_3_atp"].
Proof.
  destruct (read_blast Samples.blast_lines) as [hits|e] eqn:Hr;
    [|vm_compute in Hr; discriminate].
  destruct (genes_to_rxns Samples.python_set_order hits Samples.gene_modelseed
              (Some "eco")) as [db|e] eqn:H.
  2:{ vm_compute in Hr. injection Hr as <-. vm_compute in H. discriminate. }
  exists hits, db. split; [reflexivity|]. split; [exact H|].
  destruct (genes_to_rxns_spec _ _ _ _ _ python_set_order_ok H)
    as (Hnd & _ & _).
  vm_compute in Hr. injection Hr as <-. vm_compute in H. injection H as <-.
  split; [reflexivity|]. split; [exact Hnd|reflexivity].
Defined.

End DraftFacts.

(** ** From the BLAST output to the draft model *)

Module PipelineFacts.

Import Cobra Funcs Utils Text Hits TxFacts SbmlIdFacts HitsFacts RxnDbFacts.
Import CreateModelFacts DraftFacts.

Lemma genes_to_rxns_wf set_order hits gm organism db :
  genes_to_rxns set_order hits gm organism = Ok db -> wf db.
Proof.
  unfold genes_to_rxns. intros H.
  apply BuildFacts.result_bind_ok in H as (og & _ & H).
  apply BuildFacts.result_bind_ok in H as (db1 & Hdb1 & H).
  injection H as <-.
  apply add_hits_inv in Hdb1 as [Hwf1 _].
  destruct (add_org_inv gm (set_order og) db1) as [Hwf2 _].
  apply Hwf2, Hwf1, wf_nil.
Qed.

Lemma read_blast_annotated lines hits :
  read_blast lines = Ok hits ->
  Forall (fun g => kegg_genes g <> None) hits.
Proof.
  intros H. apply collect_Forall2 in H.
  induction H as [|l g ls gs Hg _ IH]; constructor; [|assumption].
  apply read_hit_ok in Hg as (q & k & rest & _ & ->). discriminate.
Qed.

Lemma genes_to_rxns_total set_order hits gm organism :
  Forall (fun g => kegg_genes g <> None) hits ->
  exists db, genes_to_rxns set_order hits gm organism = Ok db.
Proof.
  intros Hall. unfold genes_to_rxns.
  destruct (add_hits_total gm hits [] Hall) as (db1 & Hdb1).
  destruct organism as [org|].
  - destruct (collect_kegg_total hits Hall) as (ks & ->).
    cbn. rewrite Hdb1. cbn. eauto.
  - cbn. rewrite Hdb1. cbn. eauto.
Qed.

Lemma rxn_db_get_In k gl db :
  NoDup (List.map fst db) -> In (k, gl) db -> rxn_db_get k db = gl.
Proof.
  unfold rxn_db_get. induction db as [|[k0 g0] db IH]; cbn; [intros _ []|].
  intros Hnd. apply NoDup_cons in Hnd as [Hk0 Hnd].
  intros [[= -> ->]|Hin].
  - now rewrite String.eqb_refl.
  - destruct (String.eqb_spec k0 k) as [->|_]; [|now apply IH].
    exfalso. apply Hk0, list_elem_of_In, in_map_iff. now exists (k, gl).
Qed.

(** X8: the draft never fails once the BLAST output has been read.  For
    the genes that [read_blast] returned, [genes_to_rxns] returns a table
    (every gene carries its KEGG annotation), and [create_model] returns a
    network on that table: its reactions are the table's keys that the
    reference network has, in table order, each with the stoichiometry and
    bounds of the reference reaction; its gene-reaction rule is the ids of
    the genes listed under its key, joined by " or ", unless cobra's rule
    parser rejects that text (a gene id [and] or [or]), in which case the
    rule is left empty. *)
Theorem draft_from_blast
    (set_order : gset string -> list string)
    (gp : string -> option (list string))
    (lines : list string) (gene_modelseed : gmap string (list string))
    (organism : option string) (universal : Model) (hits : list Gene) :
  gp EmptyString = Some [] ->
  Forall (fun line => ascii_text line = true) lines ->
  read_blast lines = Ok hits ->
  exists rxn_db new_model,
    genes_to_rxns set_order hits gene_modelseed organism = Ok rxn_db
    /\ create_model gp rxn_db universal = Ok new_model
    /\ List.map rxn_id (reactions new_model)
       = List.filter (has_id (reactions universal)) (List.map fst rxn_db)
    /\ forall r, In r (reactions new_model) ->
         exists u,
           get_by_id (reactions universal) (rxn_id r) = Ok u
           /\ rxn_metabolites r = rxn_metabolites u
           /\ lower_bound r = lower_bound u
           /\ upper_bound r = upper_bound u
           /\ gene_reaction_rule r
              = match gp (or_rule (rxn_db_get (rxn_id r) rxn_db)) with
                | Some _ => or_rule (rxn_db_get (rxn_id r) rxn_db)
                | None => EmptyString
                end.
Proof.
  intros Hempty _ Hread.
  destruct (genes_to_rxns_total set_order hits gene_modelseed organism
              (read_blast_annotated _ _ Hread)) as (db & Hdb).
  destruct (genes_to_rxns_wf _ _ _ _ _ Hdb) as [Hnd _].
  exists db. unfold create_model.
  set (m0 := set_genes _ empty_model).
  destruct (create_loop gp Hempty universal m0 db [] m0)
    as (m' & Hrun & Ha & Hb & _ & _).
  - exact Hnd.
  - reflexivity.
  - intros r [].
  - intros r named g [].
  - auto.
  - rewrite Hrun. exists m'. cbn [app] in Ha, Hb.
    split; [exact Hdb|]. split; [reflexivity|]. split; [exact Ha|].
    intros r Hr. destruct (Hb r Hr) as (gl & u & bound & Hin & Hu & E).
    exists u. split; [exact Hu|].
    rewrite (rxn_db_get_In _ _ _ Hnd Hin). rewrite E. cbn. auto.
Qed.

Lemma draft_from_blast_witness :
  exists rxn_db new_model,
    genes_to_rxns Samples.python_set_order
      [ {| gene_id := "WP_004111608_1";
           kegg_genes := Some "aai:AARI_04680" |};
        {| gene_id := "_3_atp"; kegg_genes := Some "eco:b0002" |} ]
      Samples.gene_modelseed (Some "eco") = Ok rxn_db
    /\ create_model Examples.toy_gpr rxn_db Examples.reference = Ok new_model
    /\ List.map rxn_id (reactions new_model) = ["rxn_uptake_c"]
    /\ List.map gene_reaction_rule (reactions new_model)
       = ["WP_004111608_1 or _3_atp"].
Proof.
  assert (Hr : read_blast Samples.blast_lines
               = Ok [ {| gene_id := "WP_004111608_1";
                         kegg_genes := Some "aai:AARI_04680" |};
                      {| gene_id := "_3_atp";
                         kegg_genes := Some "eco:b0002" |} ])
    by (vm_compute; reflexivity).
  assert (Ha : Forall (fun line => ascii_text line = true)
                 Samples.blast_lines) by (repeat constructor).
  destruct (draft_from_blast Samples.python_set_order Examples.toy_gpr
              _ Samples.gene_modelseed (Some "eco") Examples.reference _
              eq_refl Ha Hr)
    as (db & m & Hdb & Hm & Hids & _).
  exists db, m. split; [exact Hdb|]. split; [exact Hm|].
  vm_compute in Hdb. injection Hdb as <-.
  vm_compute in Hm. injection Hm as <-. split; reflexivity.
Defined.

(** X9: the genes added for an organism are not sanitised.  A KEGG id
    of the organism (other than the bare organism code) that maps to a
    reaction and is carried by no BLAST hit gives a gene under that
    reaction's key whose id is the KEGG id itself: an id with a colon,
    which [is_valid_sbml_id] rejects and [sanitize_sbml_id] would have
    changed, unlike the ids of the genes that [read_blast] makes. *)
Theorem genes_to_rxns_org_gene_ids
    (set_order : gset string -> list string) (kegg_hits : list Gene)
    (gene_modelseed : gmap string (list string)) (organism : string)
    (rxn_db : list (string * list Gene)) (kegg rxn : string) :
  (forall (S : gset string) x, In x (set_order S) <-> x ∈ S) ->
  genes_to_rxns set_order kegg_hits gene_modelseed (Some organism)
  = Ok rxn_db ->
  In rxn (default [] (gene_modelseed !! kegg)) ->
  before_colon kegg = organism ->
  kegg <> organism ->
  (forall h, In h kegg_hits -> kegg_genes h <> Some kegg) ->
  exists gene,
    In gene (rxn_db_get (rxn ++ "_c") rxn_db)
    /\ gene_id gene = kegg
    /\ is_valid_sbml_id (gene_id gene) = false
    /\ sanitize_sbml_id (gene_id gene) <> gene_id gene.
Proof.
  intros Hord H Hr Ho Hne Hno.
  destruct (genes_to_rxns_inv _ _ _ _ _ Hord H) as [_ Hget].
  exists (org_gene kegg). split.
  - apply Hget. exists rxn, kegg. split; [reflexivity|]. split; [exact Hr|].
    right. split; [reflexivity|]. split; [now rewrite Ho|exact Hno].
  - change (gene_id (org_gene kegg)) with kegg. split; [reflexivity|].
    assert (V : is_valid_sbml_id kegg = false).
    { apply colon_not_valid. congruence. }
    split; [exact V|].
    intros E. assert (Hk : kegg <> EmptyString).
    { intros ->. cbn in Ho. congruence. }
    pose proof (sanitize_nonempty_valid kegg Hk) as V'.
    rewrite E in V'. congruence.
Qed.

Lemma genes_to_rxns_org_gene_ids_witness :
  exists rxn_db gene,
    genes_to_rxns Samples.python_set_order
      [ {| gene_id := "_3_atp"; kegg_genes := Some "eco:b0002" |} ]
      Samples.gene_modelseed (Some "eco") = Ok rxn_db
    /\ In gene (rxn_db_get "EX_cpd_B_e_c" rxn_db)
    /\ gene_id gene = "eco:b0003"
    /\ is_valid_sbml_id (gene_id gene) = false.
Proof.
  destruct (genes_to_rxns Samples.python_set_order
      [ {| gene_id := "_3_atp"; kegg_genes := Some "eco:b0002" |} ]
      Samples.gene_modelseed (Some "eco")) as [db|e] eqn:H;
    [|vm_compute in H; discriminate].
  destruct (genes_to_rxns_org_gene_ids _ _ _ _ _ "eco:b0003" "EX_cpd_B_e"
              python_set_order_ok H) as (g & H1 & H2 & H3 & _).
  - vm_compute. auto.
  - reflexivity.
  - discriminate.
  - intros h [<-|[]]. discriminate.
  - exists db, g. auto.
Defined.

End PipelineFacts.

(** ** Fractions that pass the validation *)

Module FractionFacts.

Import Cobra Funcs Build Validation ValidationFacts BuildFacts.
Local Open Scope float_scope.

Lemma SFcompare_refl_finite s m e :
  SFcompare (S754_finite s m e) (S754_finite s m e) = Some Eq.
Proof.
  unfold SFcompare. rewrite Z.compare_refl, Pos.compare_cont_refl.
  now destruct s.
Qed.

Lemma nan_Prim2SF (x : float) : is_nan x = true -> Prim2SF x = S754_nan.
Proof.
  unfold is_nan. rewrite FloatAxioms.eqb_spec. unfold SFeqb.
  destruct (Prim2SF x) as [s|s| |s m e]; try reflexivity.
  - now destruct s.
  - now destruct s.
  - now rewrite SFcompare_refl_finite.
Qed.

Lemma nan_not_improper (x : float) : is_nan x = true -> improper x = false.
Proof.
  intros H. apply nan_Prim2SF in H. unfold improper.
  rewrite FloatAxioms.leb_spec, FloatAxioms.ltb_spec, H. unfold SFleb, SFltb.
  cbn. now destruct (Prim2SF 1).
Qed.

Lemma nan_not_above (x y : float) : is_nan x = true -> (y <? x) = false.
Proof.
  intros H. apply nan_Prim2SF in H. rewrite FloatAxioms.ltb_spec, H.
  unfold SFltb. now destruct (Prim2SF y).
Qed.

Lemma nan_not_below (x y : float) : is_nan x = true -> (x <? y) = false.
Proof.
  intros H. apply nan_Prim2SF in H. rewrite FloatAxioms.ltb_spec, H. reflexivity.
Qed.

(** X10: a NaN fraction passes the validation of [reconstruct].  A NaN
    minimum (maximum) is neither replaced by its default nor warned about,
    and with a NaN on either side the maximum is never found below the
    minimum, so no fraction is halved.  The NaN reaches the gap-filler:
    in a run with gap-filling whose earlier stages succeed,
    [gapfill_rounds] is called with the NaN itself as its minimum
    (maximum) fraction. *)
Theorem check_fractions_passes_nan (mn mx : float) :
  is_nan mn = true \/ is_nan mx = true ->
  let fr := check_fractions mn mx in
  (is_nan mn = true ->
   min_frac fr = mn /\ ~ In (ImproperMinimum mn) (warnings fr))
  /\ (is_nan mx = true ->
      max_frac fr = mx /\ ~ In (ImproperMaximum mx) (warnings fr))
  /\ (forall a b, ~ In (MaximumBelowMinimum a b) (warnings fr))
  /\ (forall (w : world) (file_type : Z) (media : media_spec)
             (tasks : option (list string)) (gram : string)
             (open_exchanges : bool) ftype obj cpds draft obj',
        input_exists w = true ->
        FileType_of file_type = Ok ftype ->
        select_objective gram = Ok obj ->
        resolve_media media = Ok cpds ->
        draft_stage w ftype obj = Ok (draft, obj') ->
        reconstruct w file_type media tasks mn mx gram true open_exchanges
        = (final_model ←
             gapfill_rounds w ftype file_type cpds tasks obj'
               (if is_nan mn then mn else min_frac fr)
               (if is_nan mx then mx else max_frac fr) draft;
           finish_model w open_exchanges final_model)).
Proof.
  intros Hnan fr.
  pose proof (check_fractions_max mn mx) as Hmax.
  pose proof (check_fractions_min mn mx) as Hmin.
  pose proof (check_fractions_warnings mn mx) as Hw.
  cbv zeta in Hmin, Hw. fold fr in Hmax, Hmin, Hw.
  assert (Hcmp :
    ((if improper mx then default_max_frac else mx)
     <? (if improper mn then default_min_frac else mn)) = false).
  { destruct Hnan as [H|H].
    - rewrite (nan_not_improper _ H). now apply nan_not_above.
    - rewrite (nan_not_improper _ H). now apply nan_not_below. }
  rewrite Hcmp in Hmin, Hw. rewrite app_nil_r in Hw.
  assert (Hmn : is_nan mn = true -> min_frac fr = mn).
  { intros H. now rewrite (nan_not_improper _ H) in Hmin. }
  assert (Hmx : is_nan mx = true -> max_frac fr = mx).
  { intros H. now rewrite (nan_not_improper _ H) in Hmax. }
  split; [|split; [|split]].
  - intros H. rewrite (nan_not_improper _ H) in Hw.
    split; [now apply Hmn|]. rewrite Hw. cbn.
    destruct (improper mx); [|intros []].
    intros [[=]|[]].
  - intros H. rewrite (nan_not_improper _ H) in Hw.
    split; [now apply Hmx|]. rewrite Hw, app_nil_r.
    destruct (improper mn); [|intros []].
    intros [[=]|[]].
  - intros a b. rewrite Hw.
    destruct (improper mn), (improper mx); cbn; intuition discriminate.
  - intros w file_type media tasks gram oe ftype obj cpds draft obj'
      Hex Hft Hobj Hmed Hdraft.
    rewrite (reconstruct_gapfill_stage _ _ _ _ _ _ _ _ _ _ _ _ _
               Hex Hft Hobj Hmed Hdraft).
    fold fr.
    destruct (is_nan mn) eqn:E1; [rewrite (Hmn eq_refl)|];
      (destruct (is_nan mx) eqn:E2; [rewrite (Hmx eq_refl)|]);
      reflexivity.
Qed.

Lemma check_fractions_passes_nan_witness :
  is_nan (min_frac (check_fractions nan 0.5)) = true
  /\ warnings (check_fractions nan 0.5) = []
  /\ reconstruct Worlds.curated_world 3 (Named "rich") None nan 0.5
       "positive" true true
     = Raise SolverError
  /\ (exists final,
        reconstruct Worlds.curated_world 3 (Named "rich") None
          0x1.47ae147ae147bp-7 0.5 "positive" true true
        = Ok final).
Proof.
  destruct (check_fractions_passes_nan nan 0.5 (or_introl eq_refl))
    as (Hmin & _ & _ & Hrun).
  destruct Hmin as [Hmin _]; [reflexivity|].
  rewrite Hmin. split; [reflexivity|]. split; [reflexivity|].
  split.
  - rewrite (Hrun Worlds.curated_world 3%Z (Named "rich") None
               "positive"%string true SBML "biomass_GmPos"%string
               Medium.RICH Examples.curated "biomass_GmPos"%string
               eq_refl eq_refl eq_refl eq_refl eq_refl).
    vm_compute. reflexivity.
  - destruct (reconstruct Worlds.curated_world 3 (Named "rich") None
                0x1.47ae147ae147bp-7 0.5 "positive" true true)
      as [final|e] eqn:H; [|vm_compute in H; discriminate].
    now exists final.
Defined.

(** X11: what the validation of [reconstruct] guarantees.  The maximum
    fraction it hands on is never out of range (neither [<= 0] nor [> 1]).
    Unless it warned that the maximum was below the minimum, the minimum
    is not out of range either and the maximum is not below it; when it
    did warn, the minimum is half the maximum. *)
Theorem check_fractions_range (mn mx : float) :
  let fr := check_fractions mn mx in
  improper (max_frac fr) = false
  /\ ((forall a b, ~ In (MaximumBelowMinimum a b) (warnings fr)) ->
      improper (min_frac fr) = false
      /\ (max_frac fr <? min_frac fr) = false)
  /\ ((exists a b, In (MaximumBelowMinimum a b) (warnings fr)) ->
      min_frac fr = max_frac fr * 0.5).
Proof.
  intros fr.
  pose proof (check_fractions_max mn mx) as Hmax.
  pose proof (check_fractions_min mn mx) as Hmin.
  pose proof (check_fractions_warnings mn mx) as Hw.
  cbv zeta in Hmin, Hw. fold fr in Hmax, Hmin, Hw.
  assert (H1 : improper (if improper mx then default_max_frac else mx) = false).
  { destruct (improper mx) eqn:E; [reflexivity|exact E]. }
  assert (H2 : improper (if improper mn then default_min_frac else mn) = false).
  { destruct (improper mn) eqn:E; [reflexivity|exact E]. }
  rewrite <- Hmax in H1, Hmin, Hw.
  split; [exact H1|].
  destruct (max_frac fr <? (if improper mn then default_min_frac else mn))
    eqn:Hcmp.
  - split.
    + intros Hno. exfalso. eapply Hno. rewrite Hw.
      apply in_or_app. right. apply in_or_app. right. left. reflexivity.
    + intros _. exact Hmin.
  - split.
    + intros _. rewrite Hmin. split; [exact H2|exact Hcmp].
    + intros (a & b & Hin). rewrite Hw, app_nil_r in Hin.
      destruct (improper mn), (improper mx); cbn in Hin;
        intuition discriminate.
Qed.

End FractionFacts.

(** ** The reaction bag after a call of the gap-fill solver *)

Module RestoreFacts.

Import Cobra Funcs Frame TxFacts FindReactionsFacts CreateModelFacts.
Local Open Scope float_scope.

Lemma same_network_refl m : same_network m m.
Proof. repeat split; reflexivity. Qed.

Lemma same_network_trans m1 m2 m3 :
  same_network m1 m2 -> same_network m2 m3 -> same_network m1 m3.
Proof.
  intros (R & M & G & O & C) (R' & M' & G' & O' & C').
  repeat split; try congruence. now rewrite R.
Qed.

Lemma filter_perm {A : Type} (p : A -> bool) (l l' : list A) :
  l ≡ₚ l' -> List.filter p l ≡ₚ List.filter p l'.
Proof.
  induction 1 as [|x l l' _ IH|x y l|l l' l'' _ IH1 _ IH2]; cbn.
  - reflexivity.
  - destruct (p x); [now constructor|assumption].
  - destruct (p x), (p y); try reflexivity. apply perm_swap.
  - now rewrite IH1.
Qed.

Lemma apply_undo_same u m1 m2 :
  same_network m1 m2 -> same_network (apply_undo u m1) (apply_undo u m2).
Proof.
  intros (R & M & G & O & C). destruct u; unfold same_network; cbn.
  - repeat split; try assumption. now rewrite R.
  - rewrite M, G. repeat split; try assumption.
    unfold drop_ids. now apply filter_perm.
  - repeat split; try assumption. unfold update_rxn.
    now apply Permutation_map.
  - repeat split; assumption.
Qed.

Lemma undo_all_same top : forall m1 m2,
  same_network m1 m2 -> same_network (undo_all top m1) (undo_all top m2).
Proof.
  unfold undo_all. induction top as [|u top IH]; intros m1 m2 H; cbn.
  - exact H.
  - now apply IH, apply_undo_same.
Qed.

Lemma exit_cons m top rest :
  contexts m = top :: rest -> exit m = undo_all top (set_contexts rest m).
Proof. unfold exit. now intros ->. Qed.

Lemma exit_enter m : exit (enter m) = m.
Proof. now destruct m. Qed.

(** A recorded change that its undo action takes back. *)
Lemma recorded_change (m0 : Model) u m top rest :
  contexts m = top :: rest ->
  contexts m0 = contexts m ->
  same_network (apply_undo u (set_contexts rest m0)) (set_contexts rest m) ->
  contexts (record u m0) = (u :: top) :: rest
  /\ same_network (exit (record u m0)) (exit m).
Proof.
  intros Hc Hch Hinv. unfold record. rewrite Hch, Hc. split; [reflexivity|].
  rewrite (exit_cons m top rest Hc).
  unfold exit. cbn [contexts set_contexts fold_left].
  apply (undo_all_same top) in Hinv. exact Hinv.
Qed.

(** A change that no undo action is needed for. *)
Lemma unrecorded_change (m0 : Model) m top rest :
  contexts m = top :: rest ->
  contexts m0 = contexts m ->
  same_network (set_contexts rest m0) (set_contexts rest m) ->
  same_network (exit m0) (exit m).
Proof.
  intros Hc Hch Hinv. rewrite (exit_cons m top rest Hc).
  rewrite (exit_cons m0 top rest) by congruence.
  now apply undo_all_same.
Qed.

(** *** Composition *)

Lemma reversible_ret {A : Type} (a : A) : reversible (mret a : tx A).
Proof.
  intros m top rest r m' Hc Hnd [= _ <-].
  split; [eauto|]. split; [assumption|apply same_network_refl].
Qed.

Lemma reversible_lift {A : Type} (x : result A) : reversible (lift x).
Proof.
  intros m top rest r m' Hc Hnd [= _ <-].
  split; [eauto|]. split; [assumption|apply same_network_refl].
Qed.

Lemma reversible_get : reversible get.
Proof.
  intros m top rest r m' Hc Hnd [= _ <-].
  split; [eauto|]. split; [assumption|apply same_network_refl].
Qed.

Lemma reversible_bind {A B : Type} (c : tx A) (k : A -> tx B) :
  reversible c -> (forall a, reversible (k a)) -> reversible (c ≫= k).
Proof.
  intros Hc Hk m top rest r m' Hctx Hnd. unfold mbind, tx_bind.
  destruct (c m) as [[a|e] m1] eqn:E.
  - destruct (Hc _ _ _ _ _ Hctx Hnd E) as ((top1 & C1) & N1 & S1).
    intros H. destruct (Hk a _ _ _ _ _ C1 N1 H) as (C2 & N2 & S2).
    split; [assumption|]. split; [assumption|].
    eapply same_network_trans; eassumption.
  - intros [= <- <-]. eapply Hc; eassumption.
Qed.

Lemma reversible_for_each {A : Type} (xs : list A) (body : A -> tx unit) :
  (forall x, reversible (body x)) -> reversible (for_each xs body).
Proof.
  intros Hb. induction xs as [|x xs IH]; cbn [for_each].
  - apply reversible_ret.
  - apply reversible_bind; [apply Hb|intros _; exact IH].
Qed.

(** *** Lists of reactions with distinct ids *)

Lemma filter_other_id i rs :
  ~ In i (List.map rxn_id rs) ->
  List.filter (fun r' => negb (is_rxn i r')) rs = rs.
Proof.
  induction rs as [|a rs IH]; cbn; [reflexivity|].
  intros H. unfold is_rxn at 1.
  destruct (String.eqb_spec (rxn_id a) i) as [E|_]; [tauto|].
  cbn. rewrite IH; tauto.
Qed.

Lemma filter_find_perm i rs r :
  NoDup (List.map rxn_id rs) ->
  List.find (is_rxn i) rs = Some r ->
  (List.filter (fun r' => negb (is_rxn i r')) rs ++ [r])%list ≡ₚ rs.
Proof.
  induction rs as [|a rs IH]; cbn; [discriminate|].
  intros Hnd. apply NoDup_cons in Hnd as [Ha Hnd].
  destruct (is_rxn i a) eqn:E; cbn.
  - intros [= <-]. unfold is_rxn in E. apply String.eqb_eq in E. subst i.
    rewrite filter_other_id by (now rewrite <- list_elem_of_In).
    symmetry. apply Permutation_cons_append.
  - intros F. constructor. now apply IH.
Qed.

Lemma NoDup_ids_filter (p : Reaction -> bool) rs :
  NoDup (List.map rxn_id rs) -> NoDup (List.map rxn_id (List.filter p rs)).
Proof.
  induction rs as [|a rs IH]; cbn; [auto|].
  intros Hnd. apply NoDup_cons in Hnd as [Ha Hnd].
  destruct (p a); cbn; [|auto].
  apply NoDup_cons. split; [|auto].
  rewrite list_elem_of_In in Ha |- *. intros Hin. apply Ha.
  apply in_map_iff in Hin as (x & E & Hx). apply filter_In in Hx as [Hx _].
  apply in_map_iff. eauto.
Qed.

Lemma NoDup_ids_inj rs r r' :
  NoDup (List.map rxn_id rs) -> In r rs -> In r' rs ->
  rxn_id r = rxn_id r' -> r = r'.
Proof.
  induction rs as [|a rs IH]; cbn; [intros _ []|].
  intros Hnd. apply NoDup_cons in Hnd as [Ha Hnd].
  rewrite list_elem_of_In in Ha.
  intros [<-|H1] [<-|H2] E; auto.
  - exfalso. apply Ha. rewrite E. now apply in_map.
  - exfalso. apply Ha. rewrite <- E. now apply in_map.
Qed.

Lemma unique_ids_NoDup ids : unique_ids ids = true -> NoDup ids.
Proof.
  induction ids as [|i ids IH]; cbn; [constructor|].
  intros H. apply andb_true_iff in H as [H1 H2].
  apply NoDup_cons. split; [|auto].
  rewrite list_elem_of_In. intros Hin. apply mem_In in Hin.
  now rewrite Hin in H1.
Qed.

Lemma drop_ids_app {A : Type} (key : A -> string) have extra :
  (forall x, In x have -> ~ In (key x) (List.map key extra)) ->
  drop_ids key (List.map key extra) (have ++ extra)%list = have.
Proof.
  intros Hfresh. unfold drop_ids. rewrite List.filter_app.
  assert (H1 : List.filter
                 (fun x => negb (mem (key x) (List.map key extra))) have
               = have).
  { clear -Hfresh. induction have as [|a have IH]; cbn; [reflexivity|].
    destruct (mem (key a) (List.map key extra)) eqn:E.
    - apply mem_In in E. exfalso. eapply Hfresh; [now left|exact E].
    - cbn. rewrite IH; [reflexivity|]. intros x Hx. apply Hfresh. now right. }
  assert (H2 : forall l,
    (forall x, In x l -> In (key x) (List.map key extra)) ->
    List.filter (fun x => negb (mem (key x) (List.map key extra))) l = []).
  { induction l as [|a l IH]; cbn; [reflexivity|]. intros H.
    assert (E : mem (key a) (List.map key extra) = true)
      by (apply mem_In, H; now left).
    rewrite E. cbn. apply IH. intros x Hx. apply H. now right. }
  rewrite H1, H2; [apply app_nil_r|]. intros x Hx. now apply in_map.
Qed.

Lemma add_missing_fresh {A : Type} (key : A -> string) cands : forall have,
  exists extra,
    add_missing key have cands = (have ++ extra)%list
    /\ forall x, In x have -> ~ In (key x) (List.map key extra).
Proof.
  induction cands as [|c cands IH]; intros have; cbn.
  - exists []. rewrite app_nil_r. split; [reflexivity|]. intros x _ [].
  - destruct (mem (key c) (List.map key have)) eqn:E; [apply IH|].
    destruct (IH (have ++ [c])%list) as (extra & -> & Hfresh).
    exists (c :: extra). rewrite <- app_assoc. split; [reflexivity|].
    intros x Hx [Hc|Hin].
    + assert (mem (key c) (List.map key have) = true); [|congruence].
      apply mem_In. rewrite Hc. now apply in_map.
    + apply (Hfresh x); [|exact Hin]. apply in_or_app. now left.
Qed.

Lemma new_ids_app {A : Type} (key : A -> string) have extra :
  new_ids key have (have ++ extra)%list = List.map key extra.
Proof.
  unfold new_ids. f_equal. induction have as [|a have IH]; cbn; auto.
Qed.

Lemma update_undo i (f : Reaction -> Reaction) rs r :
  NoDup (List.map rxn_id rs) ->
  get_by_id rs i = Ok r ->
  (forall x, rxn_id (f x) = rxn_id x) ->
  (forall x, set_bounds (lower_bound x) (upper_bound x) (f x) = x) ->
  update_rxn i (set_bounds (lower_bound r) (upper_bound r))
    (update_rxn i f rs) = rs.
Proof.
  intros Hnd Hr Hid Hback. apply get_by_id_ok in Hr as [Hin Hi].
  unfold update_rxn. rewrite List.map_map.
  rewrite <- (List.map_id rs) at 2. apply List.map_ext_in. intros x Hx.
  unfold is_rxn. destruct (String.eqb_spec (rxn_id x) i) as [E|E].
  - rewrite Hid. destruct (String.eqb_spec (rxn_id x) i); [|tauto].
    assert (x = r) as -> by (eapply NoDup_ids_inj; eauto; congruence).
    apply Hback.
  - destruct (String.eqb_spec (rxn_id x) i); [tauto|reflexivity].
Qed.

Lemma update_rxn_ids i f rs :
  (forall x, rxn_id (f x) = rxn_id x) ->
  List.map rxn_id (update_rxn i f rs) = List.map rxn_id rs.
Proof.
  intros Hid. unfold update_rxn. rewrite List.map_map.
  apply List.map_ext. intros x. now destruct (is_rxn i x).
Qed.

(** *** The operations of the model *)

Lemma reversible_remove_reaction i : reversible (modify (remove_reaction i)).
Proof.
  intros m top rest r m' Hc Hnd [= _ <-]. unfold remove_reaction.
  destruct (List.find (is_rxn i) (reactions m)) as [r0|] eqn:F.
  - destruct (recorded_change
                (set_reactions
                   (List.filter (fun r' => negb (is_rxn i r')) (reactions m))
                   m)
                (UndoRemove r0) m top rest Hc eq_refl) as [C S].
    { unfold same_network. cbn. repeat split; try reflexivity.
      now apply filter_find_perm. }
    split; [eauto|]. split; [|exact S].
    unfold rxn_ids. rewrite record_reactions. cbn.
    now apply NoDup_ids_filter.
  - split; [eauto|]. split; [assumption|apply same_network_refl].
Qed.

Lemma reversible_remove_reactions ids : reversible (remove_reactions ids).
Proof.
  unfold remove_reactions.
  induction ids as [|i ids IH]; intros m top rest r m' Hc Hnd [= _ <-].
  - split; [eauto|]. split; [assumption|apply same_network_refl].
  - cbn [fold_left].
    destruct (reversible_remove_reaction i m top rest (Ok tt)
                (remove_reaction i m) Hc Hnd eq_refl)
      as ((top1 & C1) & N1 & S1).
    destruct (IH (remove_reaction i m) top1 rest (Ok tt) _ C1 N1 eq_refl)
      as (C2 & N2 & S2).
    split; [assumption|]. split; [assumption|].
    eapply same_network_trans; eassumption.
Qed.

Lemma reversible_add_reactions rs : reversible (add_reactions rs).
Proof.
  intros m top rest r m' Hc Hnd. unfold add_reactions.
  set (pruned := List.filter _ rs).
  destruct (unique_ids (List.map rxn_id pruned)) eqn:U.
  2:{ intros [= _ <-].
      split; [eauto|]. split; [assumption|apply same_network_refl]. }
  intros [= _ <-].
  destruct (add_missing_fresh met_id (metabolites_of pruned) (metabolites m))
    as (ms & Ems & Fms).
  destruct (add_missing_fresh gene_id (genes_of pruned) (genes m))
    as (gs & Egs & Fgs).
  rewrite Ems, Egs, !new_ids_app.
  assert (Ffresh : forall x, In x (reactions m) ->
                             ~ In (rxn_id x) (List.map rxn_id pruned)).
  { intros x Hx Hin. apply in_map_iff in Hin as (y & E & Hy).
    apply filter_In in Hy as [_ Hy]. apply negb_true_iff in Hy.
    assert (has_id (reactions m) (rxn_id y) = true); [|congruence].
    apply has_id_In. rewrite E. now apply in_map. }
  match goal with
  | |- context [record ?u ?m0] =>
      destruct (recorded_change m0 u m top rest Hc eq_refl) as [C S]
  end.
  { unfold same_network, apply_undo.
    cbn [reactions metabolites genes objective contexts set_reactions
         set_metabolites set_genes set_contexts].
    rewrite !drop_ids_app by assumption. repeat split; reflexivity. }
  split; [eauto|]. split; [|exact S].
  unfold rxn_ids. rewrite record_reactions. cbn.
  rewrite List.map_app. apply NoDup_app. split; [assumption|]. split.
  - intros i Hi Hp. rewrite list_elem_of_In in Hi, Hp.
    apply in_map_iff in Hi as (x & <- & Hx). now apply (Ffresh x).
  - now apply unique_ids_NoDup.
Qed.

Lemma with_lower_bound_id v x : rxn_id (with_lower_bound v x) = rxn_id x.
Proof. reflexivity. Qed.

Lemma with_lower_bound_back v x :
  set_bounds (lower_bound x) (upper_bound x) (with_lower_bound v x) = x.
Proof. now destruct x. Qed.

Lemma reversible_set_lower_bound i v : reversible (set_lower_bound i v).
Proof.
  intros m top rest r m' Hc Hnd. unfold set_lower_bound.
  destruct (get_by_id (reactions m) i) as [r0|e] eqn:G.
  2:{ intros [= _ <-].
      split; [eauto|]. split; [assumption|apply same_network_refl]. }
  destruct (upper_bound r0 <? v).
  { intros [= _ <-].
    split; [eauto|]. split; [assumption|apply same_network_refl]. }
  intros [= _ <-].
  match goal with
  | |- context [record ?u ?m0] =>
      destruct (recorded_change m0 u m top rest Hc eq_refl) as [C S]
  end.
  { unfold same_network, apply_undo.
    cbn [reactions metabolites genes objective contexts set_reactions
         set_metabolites set_genes set_contexts].
    rewrite (update_undo i _ _ r0 Hnd G (with_lower_bound_id v)
               (with_lower_bound_back v)).
    repeat split; reflexivity. }
  split; [eauto|]. split; [|exact S].
  unfold rxn_ids. rewrite record_reactions. cbn.
  rewrite update_rxn_ids; [assumption|apply with_lower_bound_id].
Qed.

Lemma reversible_assign_objective o : reversible (assign_objective o).
Proof.
  intros m top rest r m' Hc Hnd [= _ <-].
  destruct (recorded_change (set_objective o m) (UndoObjective (objective m))
              m top rest Hc eq_refl) as [C S].
  { unfold same_network. cbn. repeat split; reflexivity. }
  split; [eauto|]. split; [|exact S].
  unfold rxn_ids. now rewrite record_reactions.
Qed.

Lemma reversible_assign_objective_reaction r0 :
  reversible (assign_objective_reaction r0).
Proof.
  intros m top rest r m' Hc Hnd H. unfold assign_objective_reaction in H.
  eapply reversible_assign_objective; eassumption.
Qed.

Lemma reversible_assign_objective_index n :
  reversible (assign_objective_index n).
Proof.
  intros m top rest r m' Hc Hnd. unfold assign_objective_index.
  destruct (nth_error (reactions m) n) as [r0|].
  - intros H. eapply reversible_assign_objective_reaction; eassumption.
  - intros [= _ <-].
    split; [eauto|]. split; [assumption|apply same_network_refl].
Qed.

Lemma reversible_solver_add solver c : reversible (solver_add solver c).
Proof.
  intros m top rest r m' Hc Hnd. unfold solver_add.
  destruct (admits solver c); intros [= _ <-].
  - split; [eauto|]. split; [assumption|].
    apply (unrecorded_change (set_constraints (constraints m ++ [c]) m)
             m top rest Hc eq_refl).
    unfold same_network. cbn. repeat split; reflexivity.
  - split; [eauto|]. split; [assumption|apply same_network_refl].
Qed.

Lemma reversible_slim_optimize solver : reversible (slim_optimize solver).
Proof.
  intros m top rest r m' Hc Hnd [= _ <-].
  split; [eauto|]. split; [assumption|apply same_network_refl].
Qed.

Lemma reversible_optimize solver : reversible (optimize solver).
Proof.
  intros m top rest r m' Hc Hnd H.
  assert (m' = m) as ->.
  { unfold optimize in H.
    destruct (out_status _); cbn in H; injection H as _ <-; reflexivity. }
  split; [eauto|]. split; [assumption|apply same_network_refl].
Qed.

(** The coefficients written into the objective by
    [set_linear_coefficients] are not recorded, but the objective they
    are written into was assigned just before, and undoing that
    assignment discards them. *)
Lemma reversible_pfba_objective o d :
  reversible (assign_objective o ;; set_linear_coefficients d).
Proof.
  intros m top rest r m' Hc Hnd.
  unfold mbind, tx_bind, assign_objective, set_linear_coefficients, modify.
  intros [= _ <-].
  destruct m as [rs ms gs cs ob ctx]. cbn in Hc. subst ctx.
  unfold record. cbn. split; [eauto|]. split; [exact Hnd|].
  unfold exit. cbn. apply same_network_refl.
Qed.

(** *** The body of [find_reactions] *)

Lemma reversible_set_task_bounds tasks f :
  reversible (set_task_bounds tasks f).
Proof.
  destruct tasks as [ts|]; cbn; [|apply reversible_ret].
  apply reversible_for_each. intros rxn.
  apply reversible_bind; [apply reversible_get|]. intros u.
  destruct (has_id _ _); [apply reversible_set_lower_bound|].
  apply reversible_ret.
Qed.

Lemma reversible_merge_model model tasks obj f ft :
  reversible (merge_model model tasks obj f ft).
Proof.
  unfold merge_model.
  apply reversible_bind; [apply reversible_get|]. intros u.
  apply reversible_bind; [apply reversible_remove_reactions|]. intros _.
  apply reversible_bind; [apply reversible_add_reactions|]. intros _.
  apply reversible_set_task_bounds.
Qed.

Lemma reversible_pfba_problem solver model obj f mf step ft :
  reversible (pfba_problem solver model obj f mf step ft).
Proof.
  unfold pfba_problem.
  apply reversible_bind; [apply reversible_get|]. intros u.
  apply reversible_bind; [apply reversible_lift|]. intros r.
  apply reversible_bind; [apply reversible_assign_objective_reaction|].
  intros _.
  apply reversible_bind; [apply reversible_slim_optimize|]. intros V.
  apply reversible_bind; [apply reversible_lift|]. intros c.
  apply reversible_bind; [apply reversible_solver_add|]. intros _.
  apply reversible_bind; [apply reversible_get|]. intros u'.
  apply reversible_bind; [apply reversible_assign_objective_index|].
  intros _. apply reversible_pfba_objective.
Qed.

Lemma reversible_find_reactions_body solver model tasks obj f mf step ft :
  reversible (find_reactions_body solver model tasks obj f mf step ft).
Proof.
  unfold find_reactions_body.
  apply reversible_bind; [apply reversible_merge_model|]. intros _.
  apply reversible_bind; [apply reversible_pfba_problem|]. intros _.
  apply reversible_optimize.
Qed.

(** Unless the solver refuses the constraint, the bag is left as the
    same network, whether [find_reactions] returns or raises. *)
Lemma find_reactions_same_network
    solver model tasks obj f mf step ft bag r bag' :
  NoDup (rxn_ids bag) ->
  find_reactions solver model tasks obj f mf step ft bag = (r, bag') ->
  r <> Raise SolverError ->
  same_network bag' bag.
Proof.
  intros Hnd. unfold find_reactions, mbind, tx_bind, with_context.
  destruct (find_reactions_body solver model tasks obj f mf step ft
              (enter bag)) as [r1 m1] eqn:E.
  destruct (reversible_find_reactions_body solver model tasks obj f mf step
              ft (enter bag) [] (contexts bag) r1 m1 eq_refl Hnd E)
    as (_ & _ & S).
  rewrite exit_enter in S.
  destruct r1 as [s|e]; [intros [= _ <-] _; exact S|].
  destruct e; intros [= <- <-] Hr; try exact S. now destruct Hr.
Qed.

(** X12: when [find_reactions] returns, whatever the solver answered, the
    reaction bag (if its reaction ids are distinct) is the same network
    after the call as before: the same reactions with the same bounds, up
    to their order in the list, and the same metabolites, genes, objective
    and open contexts.  What the call adds to the bag (the model's
    reactions, the task bounds, the objectives it assigns, the pFBA
    coefficients) is taken back when the [with] block is left. *)
Theorem find_reactions_restores_bag
    solver model tasks obj f mf step ft bag ids bag' :
  NoDup (List.map rxn_id (reactions bag)) ->
  find_reactions solver model tasks obj f mf step ft bag = (Ok ids, bag') ->
  reactions bag' ≡ₚ reactions bag
  /\ metabolites bag' = metabolites bag
  /\ genes bag' = genes bag
  /\ objective bag' = objective bag
  /\ contexts bag' = contexts bag.
Proof.
  intros Hnd H.
  apply (find_reactions_same_network _ _ _ _ _ _ _ _ _ _ _ Hnd H).
  discriminate.
Qed.

Lemma find_reactions_restores_bag_witness :
  exists bag',
    find_reactions Examples.toy_solver Examples.draft None "biomass_GmPos"
      Examples.fraction Examples.max_fraction 1 1 (Examples.bag 0)
    = (Ok {[ "biomass_GmPos" ]}, bag')
    /\ reactions bag' ≡ₚ reactions (Examples.bag 0)
    /\ objective bag' = objective (Examples.bag 0).
Proof.
  destruct (find_reactions Examples.toy_solver Examples.draft None
              "biomass_GmPos" Examples.fraction Examples.max_fraction 1 1
              (Examples.bag 0)) as [[ids|e] bag'] eqn:E;
    [|vm_compute in E; discriminate].
  assert (Hnd : NoDup (List.map rxn_id (reactions (Examples.bag 0)))).
  { apply (bool_decide_unpack _). vm_compute. exact I. }
  destruct (find_reactions_restores_bag _ _ _ _ _ _ _ _ _ _ _ Hnd E)
    as (R & _ & _ & O & _).
  exists bag'. split; [|auto]. vm_compute in E. now injection E as <- _.
Defined.

End RestoreFacts.

(** ** What the gap-fill solver returns, and when it gives up *)

Module BagFacts.

Import Cobra Funcs Frame TxFacts FindReactionsFacts CreateModelFacts.
Import GapfillFacts RestoreFacts Build BuildFacts.
Local Open Scope float_scope.

Lemma add_rxns_ids model obj ft :
  List.map rxn_id (add_rxns model obj ft) = orig_rxn_ids model obj ft.
Proof.
  unfold add_rxns, orig_rxn_ids, skipped. f_equal.
  apply List.filter_ext. intros r.
  now destruct (String.eqb (rxn_id r) obj), (ft =? 3)%Z.
Qed.

Lemma remove_reaction_ids i m j :
  In j (rxn_ids (remove_reaction i m)) -> In j (rxn_ids m).
Proof.
  unfold remove_reaction, rxn_ids.
  destruct (List.find _ _); [|auto].
  rewrite record_reactions. cbn. rewrite !in_map_iff.
  intros (x & E & Hx). apply filter_In in Hx as [Hx _]. eauto.
Qed.

Lemma remove_reactions_ids ids m r m' :
  remove_reactions ids m = (r, m') ->
  r = Ok tt /\ forall j, In j (rxn_ids m') -> In j (rxn_ids m).
Proof.
  unfold remove_reactions, modify. intros [= <- <-]. split; [reflexivity|].
  revert m. induction ids as [|i ids IH]; intros m j; cbn; [auto|].
  intros H. apply IH in H. now apply remove_reaction_ids in H.
Qed.

Lemma add_reactions_ids rs m r m' :
  add_reactions rs m = (r, m') ->
  forall j, In j (rxn_ids m') ->
            In j (rxn_ids m) \/ In j (List.map rxn_id rs).
Proof.
  unfold add_reactions, rxn_ids.
  destruct (unique_ids _); intros [= _ <-] j; [|auto].
  rewrite record_reactions. cbn. rewrite List.map_app, in_app_iff.
  intros [H|H]; [auto|]. right. apply in_map_iff in H as (x & E & Hx).
  apply filter_In in Hx as [Hx _]. apply in_map_iff. eauto.
Qed.

Lemma set_lower_bound_ids i v m r m' :
  set_lower_bound i v m = (r, m') -> rxn_ids m' = rxn_ids m.
Proof.
  unfold set_lower_bound, rxn_ids.
  destruct (get_by_id _ _) as [r0|]; [|now intros [= _ <-]].
  destruct (_ <? _); intros [= _ <-]; [reflexivity|].
  rewrite record_reactions. cbn. apply update_rxn_ids.
  apply with_lower_bound_id.
Qed.

(** A task bound is refused only with [ValueError]. *)
Lemma set_lower_bound_error i v m e m' :
  has_id (reactions m) i = true ->
  set_lower_bound i v m = (Raise e, m') -> e = ValueError.
Proof.
  intros Hhas. unfold set_lower_bound.
  destruct (has_id_get _ _ Hhas) as (r0 & ->).
  destruct (_ <? _); [|discriminate]. now intros [= <- _].
Qed.

Lemma set_task_bounds_ids tasks f : forall m r m',
  set_task_bounds tasks f m = (r, m') ->
  rxn_ids m' = rxn_ids m /\ (forall e, r = Raise e -> e = ValueError).
Proof.
  destruct tasks as [ts|]; cbn [set_task_bounds].
  2:{ intros m r m' [= <- <-]. split; [reflexivity|discriminate]. }
  induction ts as [|t ts IH]; intros m r m'; cbn [for_each].
  { intros [= <- <-]. split; [reflexivity|discriminate]. }
  unfold mbind at 1, tx_bind at 1.
  destruct ((universal ← get;
             if has_id (reactions universal) t then set_lower_bound t f
             else mret tt) m) as [[[]|e] m1] eqn:Hs.
  - assert (H1 : rxn_ids m1 = rxn_ids m).
    { revert Hs. unfold mbind, tx_bind, get.
      destruct (has_id (reactions m) t); [apply set_lower_bound_ids|].
      now intros [= <-]. }
    intros H. apply IH in H as [H2 He]. split; [congruence|exact He].
  - intros [= <- <-]. revert Hs. unfold mbind, tx_bind, get.
    destruct (has_id (reactions m) t) eqn:Hhas; [|discriminate].
    intros Hs. split; [eapply set_lower_bound_ids, Hs|].
    intros e' [= <-]. eapply set_lower_bound_error; eassumption.
Qed.

Lemma update_rxn_upper i v rs r' :
  In r' (update_rxn i (with_lower_bound v) rs) ->
  exists r, In r rs /\ upper_bound r' = upper_bound r.
Proof.
  unfold update_rxn. rewrite in_map_iff. intros (r & <- & Hr).
  exists r. split; [assumption|]. now destruct (is_rxn i r).
Qed.

(** No task bound is refused when no reaction has its upper bound below
    the fraction. *)
Lemma set_task_bounds_total tasks f : forall m,
  (forall r, In r (reactions m) -> (upper_bound r <? f) = false) ->
  exists m', set_task_bounds tasks f m = (Ok tt, m').
Proof.
  destruct tasks as [ts|]; cbn [set_task_bounds]; [|intros m _; now exists m].
  induction ts as [|t ts IH]; intros m Hub; cbn [for_each]; [now exists m|].
  assert (Hstep : exists m1,
    (universal ← get;
     if has_id (reactions universal) t then set_lower_bound t f
     else mret tt) m = (Ok tt, m1)
    /\ forall r, In r (reactions m1) -> (upper_bound r <? f) = false).
  { unfold mbind, tx_bind, get.
    destruct (has_id (reactions m) t) eqn:E; [|now exists m].
    destruct (has_id_get _ _ E) as (r0 & Hr0).
    unfold set_lower_bound. rewrite Hr0.
    rewrite (Hub r0) by (now apply get_by_id_ok in Hr0).
    eexists. split; [reflexivity|]. intros r Hr.
    rewrite record_reactions in Hr. cbn [reactions set_reactions] in Hr.
    apply update_rxn_upper in Hr as (r1 & Hr1 & ->). now apply Hub. }
  destruct Hstep as (m1 & Hs & Hub1).
  rewrite (tx_bind_run _ _ _ _ _ Hs). now apply IH.
Qed.

Lemma NoDup_unique_ids ids : NoDup ids -> unique_ids ids = true.
Proof.
  induction ids as [|i ids IH]; cbn; [reflexivity|].
  intros H. apply NoDup_cons in H as [Hi H]. rewrite IH by assumption.
  rewrite andb_true_r. apply negb_true_iff.
  destruct (mem i ids) eqn:E; [|reflexivity].
  apply mem_In in E. exfalso. apply Hi. now apply list_elem_of_In.
Qed.

(** The bag inside the [with] block: its reactions are reactions of the
    bag or copies of those of the model. *)
Lemma merge_model_ids model tasks obj f ft m r u1 :
  merge_model model tasks obj f ft m = (r, u1) ->
  forall j, In j (rxn_ids u1) ->
            In j (rxn_ids m) \/ In j (orig_rxn_ids model obj ft).
Proof.
  unfold merge_model, mbind, tx_bind, get.
  destruct (remove_reactions _ m) as [r1 m1] eqn:E1.
  apply remove_reactions_ids in E1 as [-> H1].
  destruct (add_reactions _ m1) as [[[]|e] m2] eqn:E2.
  - pose proof (add_reactions_ids _ _ _ _ E2) as H2.
    rewrite add_rxns_ids in H2.
    intros H3. apply set_task_bounds_ids in H3 as [H3 _].
    intros j Hj. rewrite H3 in Hj.
    destruct (H2 j Hj) as [H|H]; auto.
  - pose proof (add_reactions_ids _ _ _ _ E2) as H2.
    rewrite add_rxns_ids in H2.
    intros [= _ <-] j Hj. destruct (H2 j Hj) as [H|H]; auto.
Qed.

Lemma remove_reaction_In i m r :
  In r (reactions (remove_reaction i m)) -> In r (reactions m).
Proof.
  unfold remove_reaction. destruct (List.find _ _); [|auto].
  rewrite record_reactions. cbn. intros H. now apply filter_In in H.
Qed.

Lemma remove_reactions_In ids : forall m r m',
  remove_reactions ids m = (r, m') ->
  forall x, In x (reactions m') -> In x (reactions m).
Proof.
  unfold remove_reactions, modify.
  induction ids as [|i ids IH]; intros m r m' [= _ <-] x; cbn; [auto|].
  intros H. eapply IH in H; [|reflexivity].
  now apply remove_reaction_In in H.
Qed.

(** With distinct reaction ids in the model, merging it into the bag can
    only fail on a task bound. *)
Lemma merge_model_cases model tasks obj f ft m :
  NoDup (rxn_ids model) ->
  exists r u1,
    merge_model model tasks obj f ft m = (r, u1)
    /\ (r = Ok tt \/ r = Raise ValueError)
    /\ ((forall x, In x (reactions m) \/ In x (reactions model) ->
                   (upper_bound x <? f) = false) ->
        r = Ok tt).
Proof.
  intros Hnd. unfold merge_model, mbind, tx_bind, get.
  destruct (remove_reactions _ m) as [r1 m1] eqn:E1.
  pose proof (remove_reactions_In _ _ _ _ E1) as Hin1.
  apply remove_reactions_ids in E1 as [-> _].
  assert (E2 : exists m2,
    add_reactions (add_rxns model obj ft) m1 = (Ok tt, m2)
    /\ forall x, In x (reactions m2) ->
                 In x (reactions m1) \/ In x (reactions model)).
  { unfold add_reactions. rewrite NoDup_unique_ids.
    2:{ apply NoDup_ids_filter. unfold add_rxns.
        now apply NoDup_ids_filter. }
    eexists. split; [reflexivity|]. intros x.
    rewrite record_reactions. cbn [reactions set_reactions set_genes
      set_metabolites]. rewrite in_app_iff. intros [H|H]; [auto|right].
    apply filter_In in H as [H _]. unfold add_rxns in H.
    now apply filter_In in H. }
  destruct E2 as (m2 & -> & Hin2).
  destruct (set_task_bounds tasks f m2) as [r3 m3] eqn:E3.
  exists r3, m3. split; [reflexivity|].
  pose proof (set_task_bounds_ids _ _ _ _ _ E3) as [_ He].
  split.
  - destruct r3 as [[]|e]; [now left|right]. now rewrite (He e eq_refl).
  - intros Hub.
    destruct (set_task_bounds_total tasks f m2) as (m3' & E3').
    { intros x Hx. apply Hub. destruct (Hin2 x Hx) as [H|H]; auto. }
    congruence.
Qed.

Lemma get_by_id_absent rs i :
  ~ In i (List.map rxn_id rs) -> get_by_id rs i = Raise (KeyError i).
Proof.
  intros H. unfold get_by_id. destruct (List.find _ _) as [r|] eqn:F;
    [|reflexivity].
  exfalso. apply H. apply find_some in F as [Hin E].
  apply String.eqb_eq in E. apply in_map_iff. eauto.
Qed.

(** X13: an objective that neither the bag nor (for an SBML input) the
    model knows always makes [find_reactions] raise, when the bag and the
    model each have distinct reaction ids and the fraction is a number
    (not NaN).  The error is [KeyError] for
    the objective, unless setting the lower bound of a task reaction was
    refused first ([ValueError], a fraction above the reaction's upper
    bound); it is [KeyError] whenever no reaction of the bag or the model
    has its upper bound below the fraction.  The failure comes before
    anything is handed to the solver: the bag keeps its solver
    constraints, and its reactions (up to order), metabolites, genes and
    objective are as before the call. *)
Theorem find_reactions_unknown_objective
    solver model tasks obj f mf step ft bag :
  NoDup (List.map rxn_id (reactions model)) ->
  NoDup (List.map rxn_id (reactions bag)) ->
  has_id (reactions bag) obj = false ->
  (ft = 3%Z -> has_id (reactions model) obj = false) ->
  (f =? f) = true ->
  exists e bag',
    find_reactions solver model tasks obj f mf step ft bag = (Raise e, bag')
    /\ (e = KeyError obj \/ e = ValueError)
    /\ ((forall r, In r (reactions bag) \/ In r (reactions model) ->
                   (upper_bound r <? f) = false) ->
        e = KeyError obj)
    /\ reactions bag' ≡ₚ reactions bag
    /\ metabolites bag' = metabolites bag
    /\ genes bag' = genes bag
    /\ objective bag' = objective bag
    /\ constraints bag' = constraints bag.
Proof.
  intros Hm Hb Hobj Hft _.
  destruct (merge_model_cases model tasks obj f ft (enter bag) Hm)
    as (r & u1 & Hu1 & Hr & Htot).
  assert (Hbody : exists e,
    find_reactions_body solver model tasks obj f mf step ft (enter bag)
    = (Raise e, u1)
    /\ (e = KeyError obj \/ e = ValueError)
    /\ (r = Ok tt -> e = KeyError obj)).
  { unfold find_reactions_body. destruct Hr as [-> | ->].
    - exists (KeyError obj). split; [|auto].
      rewrite (tx_bind_run _ _ _ _ _ Hu1).
      unfold pfba_problem, mbind, tx_bind, get, lift.
      rewrite get_by_id_absent; [reflexivity|].
      intros Hin.
      destruct (merge_model_ids _ _ _ _ _ _ _ _ Hu1 obj Hin) as [H|H].
      + apply has_id_In in H. unfold enter in H.
        cbn [reactions set_contexts] in H. congruence.
      + apply orig_rxn_ids_spec in H as (r & Hr & Hid & [Hne|Hft3]);
          [congruence|].
        assert (has_id (reactions model) obj = true);
          [|rewrite (Hft Hft3) in *; discriminate].
        apply has_id_In, in_map_iff. eauto.
    - exists ValueError. split; [|split; [auto|discriminate]].
      unfold mbind, tx_bind. now rewrite Hu1. }
  destruct Hbody as (e & Hbody & He & Hok).
  assert (Hcall :
    find_reactions solver model tasks obj f mf step ft bag
    = (Raise e, exit u1)).
  { unfold find_reactions, with_context, mbind, tx_bind.
    rewrite Hbody. now destruct He as [-> | ->]. }
  exists e, (exit u1). split; [exact Hcall|]. split; [exact He|].
  split; [intros Hub; apply Hok, Htot; exact Hub|].
  destruct (find_reactions_same_network _ _ _ _ _ _ _ _ _ _ _ Hb Hcall)
    as (R & M & G & O & _).
  { now destruct He as [-> | ->]. }
  repeat (split; [assumption|]).
  rewrite exit_constraints.
  now rewrite (merge_model_constraints _ _ _ _ _ _ _ _ Hu1).
Qed.

Lemma find_reactions_unknown_objective_witness :
  exists bag',
    find_reactions Examples.toy_solver Examples.draft
      (Some ["rxn_uptake_c"%string]) "biomass_GmNeg"
      Examples.fraction Examples.max_fraction 1 1 (Examples.bag 0)
    = (Raise (KeyError "biomass_GmNeg"), bag')
    /\ constraints bag' = [].
Proof.
  destruct (find_reactions_unknown_objective Examples.toy_solver
              Examples.draft (Some ["rxn_uptake_c"%string]) "biomass_GmNeg"
              Examples.fraction Examples.max_fraction 1 1 (Examples.bag 0))
    as (e & bag' & H & _ & He & _ & _ & _ & _ & C).
  - apply (bool_decide_unpack _). vm_compute. exact I.
  - apply (bool_decide_unpack _). vm_compute. exact I.
  - reflexivity.
  - discriminate.
  - reflexivity.
  - exists bag'. split; [|exact C]. rewrite H, He; [reflexivity|].
    intros r [[<-|[<-|[]]]|[<-|[]]]; vm_compute; reflexivity.
Defined.

Lemma collect_total {A B : Type} (f : A -> result B) xs :
  (forall x, In x xs -> exists y, f x = Ok y) ->
  exists ys, collect f xs = Ok ys.
Proof.
  induction xs as [|x xs IH]; intros H; cbn; [eauto|].
  destruct (H x (or_introl eq_refl)) as (y & ->).
  destruct IH as (ys & ->); [intros z Hz; apply H; now right|].
  cbn. eauto.
Qed.

Lemma has_id_perm rs rs' i : rs ≡ₚ rs' -> has_id rs i = has_id rs' i.
Proof.
  intros P. destruct (has_id rs i) eqn:E1, (has_id rs' i) eqn:E2;
    try reflexivity.
  - apply has_id_In in E1. apply (Permutation_map rxn_id) in P.
    apply (Permutation_in _ P) in E1. apply has_id_In in E1. congruence.
  - apply has_id_In in E2. apply (Permutation_map rxn_id) in P.
    symmetry in P. apply (Permutation_in _ P) in E2.
    apply has_id_In in E2. congruence.
Qed.

(** X14: every id that [find_reactions] returns is the id of a reaction
    of the bag, never one of [orig_rxn_ids], and it can be looked up in the
    bag as the call leaves it.  For an input other than an SBML model the
    objective reaction is in the bag as well, so the look-ups that
    [gapfill_model] then makes in the bag ([new_rxns]) cannot fail. *)
Theorem find_reactions_returns_bag_ids
    solver model tasks obj f mf step ft bag ids bag' :
  NoDup (List.map rxn_id (reactions bag)) ->
  find_reactions solver model tasks obj f mf step ft bag = (Ok ids, bag') ->
  (forall i, i ∈ ids ->
     ~ In i (orig_rxn_ids model obj ft)
     /\ exists r, get_by_id (reactions bag') i = Ok r
                  /\ In r (reactions bag))
  /\ (ft <> 3%Z ->
      exists rxns, new_rxns bag' (elements ids) obj step = Ok rxns).
Proof.
  intros Hnd Hcall.
  destruct (find_reactions_same_network _ _ _ _ _ _ _ _ _ _ _ Hnd Hcall)
    as (R & _); [discriminate|].
  pose proof Hcall as H. unfold find_reactions in H.
  tx_step H as sol m1 Hbody.
  apply with_context_ok in Hbody as (lp & Hbody & ->).
  unfold mret, tx_ret in H. injection H as Eids _.
  apply find_reactions_body_inv in Hbody as (u1 & Hm & Hp & ->).
  apply pfba_problem_inv in Hp as (ro & c & Hro & _ & _ & Rlp & _ & _).
  pose proof (merge_model_ids _ _ _ _ _ _ _ _ Hm) as Hids.
  assert (Hlook : forall i, In i (rxn_ids (enter bag)) ->
    exists r, get_by_id (reactions bag') i = Ok r /\ In r (reactions bag)).
  { intros i Hi.
    assert (E : has_id (reactions bag') i = true).
    { rewrite (has_id_perm _ _ i R). now apply has_id_In. }
    destruct (has_id_get _ _ E) as (r & Hr). exists r. split; [exact Hr|].
    apply get_by_id_ok in Hr as [Hr _]. now apply (Permutation_in _ R). }
  assert (Hall : forall i, i ∈ ids ->
     ~ In i (orig_rxn_ids model obj ft)
     /\ exists r, get_by_id (reactions bag') i = Ok r
                  /\ In r (reactions bag)).
  { intros i Hi. rewrite <- Eids in Hi.
    apply elem_of_difference in Hi as [Hact Hno].
    rewrite elem_of_list_to_set, list_elem_of_In in Hact, Hno.
    split; [exact Hno|]. apply Hlook.
    apply active_rxns_spec in Hact as (v & Hv & _).
    unfold solution_of in Hv. cbn [fluxes] in Hv.
    apply in_map_iff in Hv as (r & [= <- _] & Hr).
    destruct (Hids (rxn_id r)) as [H|H]; [|exact H|contradiction].
    unfold rxn_ids. rewrite <- Rlp. now apply in_map. }
  split; [exact Hall|].
  intros Hft. unfold new_rxns.
  assert (Hobj : step = 1%Z ->
                 exists r, get_by_id (reactions bag') obj = Ok r).
  { intros _. apply get_by_id_ok in Hro as [Hin Hid].
    destruct (Hids obj) as [H|H].
    - unfold rxn_ids. rewrite <- Hid. now apply in_map.
    - destruct (Hlook obj H) as (r & Hr & _). eauto.
    - apply orig_rxn_ids_spec in H as (r & _ & _ & [H|H]); congruence. }
  destruct (collect_total (get_by_id (reactions bag'))
              (List.filter (fun rxn => negb (String.eqb rxn obj))
                 (elements ids))) as (ys & Hys).
  { intros i Hi. apply filter_In in Hi as [Hi _].
    apply list_elem_of_In, elem_of_elements in Hi.
    destruct (Hall i Hi) as (_ & r & Hr & _). eauto. }
  destruct (Z.eqb_spec step 1) as [E|E].
  - destruct (Hobj E) as (r & ->). cbn. rewrite Hys. cbn. eauto.
  - cbn. rewrite Hys. cbn. eauto.
Qed.

Lemma find_reactions_returns_bag_ids_witness :
  exists ids bag' rxns,
    find_reactions Examples.toy_solver Examples.draft None "biomass_GmPos"
      Examples.fraction Examples.max_fraction 1 1 (Examples.bag 0)
    = (Ok ids, bag')
    /\ new_rxns bag' (elements ids) "biomass_GmPos" 1 = Ok rxns.
Proof.
  destruct (find_reactions Examples.toy_solver Examples.draft None
              "biomass_GmPos" Examples.fraction Examples.max_fraction 1 1
              (Examples.bag 0)) as [[ids|e] bag'] eqn:H;
    [|vm_compute in H; discriminate].
  assert (Hnd : NoDup (List.map rxn_id (reactions (Examples.bag 0)))).
  { apply (bool_decide_unpack _). vm_compute. exact I. }
  destruct (find_reactions_returns_bag_ids _ _ _ _ _ _ _ _ _ _ _ Hnd H)
    as [_ Hnew].
  destruct Hnew as (rxns & Hr); [discriminate|].
  exists ids, bag', rxns. split; [reflexivity|exact Hr].
Defined.

(** Without the objective reaction in the universal network, the two
    rounds of gap-filling cannot succeed. *)
Lemma gapfill_rounds_needs_objective
    w ftype file_type media tasks obj mn mx draft x u0 :
  assign_medium w (medium_ids (universal_model w) media) (universal_model w)
  = (Ok x, u0) ->
  NoDup (List.map rxn_id (reactions u0)) ->
  has_id (reactions u0) obj = false ->
  exists e,
    gapfill_rounds w ftype file_type media tasks obj mn mx draft = Raise e
    /\ forall ids u1,
         find_reactions (solver w) draft tasks obj mn mx 1 file_type u0
         = (Ok ids, u1) ->
         e = KeyError obj.
Proof.
  intros Hmed Hnd Hobj. unfold gapfill_rounds.
  assert (R0 :
    run (assign_medium w (medium_ids (universal_model w) media))
      (universal_model w) = Ok (x, u0)).
  { unfold run. now rewrite Hmed. }
  rewrite R0. cbn [mbind result_bind].
  destruct (find_reactions (solver w) draft tasks obj mn mx 1 file_type u0)
    as [[ids|e] u1] eqn:Hfind.
  2:{ exists e. split; [|intros ? ? [=]].
      assert (R1 :
        run (find_reactions (solver w) draft tasks obj mn mx 1 file_type) u0
        = Raise e) by (unfold run; now rewrite Hfind).
      now rewrite R1. }
  assert (R1 :
    run (find_reactions (solver w) draft tasks obj mn mx 1 file_type) u0
    = Ok (ids, u1)).
  { unfold run. now rewrite Hfind. }
  rewrite R1. cbn [mbind result_bind].
  destruct (find_reactions_same_network _ _ _ _ _ _ _ _ _ _ _ Hnd Hfind)
    as (R & _); [discriminate|].
  assert (Hno : get_by_id (reactions u1) obj = Raise (KeyError obj)).
  { apply get_by_id_absent. intros Hin. apply has_id_In in Hin.
    rewrite (has_id_perm _ _ obj R) in Hin. congruence. }
  assert (Hgap :
    run (gapfill_model (find_external_compartment w) u1 (elements ids) obj 1)
      draft
    = Raise (KeyError obj)).
  { unfold run, gapfill_model, mbind, tx_bind, lift, new_rxns.
    cbn [Z.eqb Pos.eqb]. unfold mbind, result_bind. now rewrite Hno. }
  rewrite Hgap. cbn [mbind result_bind].
  exists (KeyError obj). split; reflexivity.
Qed.

(** X15: [reconstruct] cannot gap-fill an SBML model whose objective
    reaction is missing from the universal network.  The objective is then
    the model's own, [find_reactions] adds it to the bag for the duration
    of the call only, and the look-up of the objective in the bag that
    [gapfill_model] makes in step 1 raises [KeyError]; the run fails, with
    that [KeyError] whenever the first [find_reactions] returns. *)
Theorem reconstruct_sbml_foreign_objective
    (w : world) (media : media_spec) (cpds : list string)
    (tasks : option (list string)) (mn mx : float) (gram : string)
    (open_exchanges : bool) (draft : Model) (u0 : Model) :
  input_exists w = true ->
  gram = "positive"%string \/ gram = "negative"%string ->
  resolve_media media = Ok cpds ->
  sbml_model w = Ok draft ->
  assign_medium w (medium_ids (universal_model w) cpds) (universal_model w)
  = (Ok tt, u0) ->
  NoDup (List.map rxn_id (reactions u0)) ->
  has_id (reactions u0) (sbml_objective w) = false ->
  exists e,
    reconstruct w 3 media tasks mn mx gram true open_exchanges = Raise e
    /\ forall ids u1,
         find_reactions (solver w) draft tasks (sbml_objective w)
           (Validation.min_frac (Validation.check_fractions mn mx))
           (Validation.max_frac (Validation.check_fractions mn mx)) 1 3 u0
         = (Ok ids, u1) ->
         e = KeyError (sbml_objective w).
Proof.
  intros Hex Hgram Hmedia Hsbml Hmed Hnd Hobj.
  destruct (gapfill_rounds_needs_objective w SBML 3 cpds tasks
              (sbml_objective w)
              (Validation.min_frac (Validation.check_fractions mn mx))
              (Validation.max_frac (Validation.check_fractions mn mx))
              draft tt u0 Hmed Hnd Hobj) as (e & Hrounds & He).
  exists e. split; [|exact He].
  unfold reconstruct. rewrite Hex. cbn [negb FileType_of Z.eqb Pos.eqb].
  cbn [mbind result_bind].
  assert (Hsel : exists o, Validation.select_objective gram = Ok o).
  { destruct Hgram as [-> | ->]; eexists; reflexivity. }
  destruct Hsel as (o & ->). cbn [mbind result_bind].
  unfold build_stages. rewrite Hmedia. cbn [mbind result_bind].
  unfold draft_stage. rewrite Hsbml. cbn [mbind result_bind mret result_ret].
  rewrite Hrounds. reflexivity.
Qed.

Lemma reconstruct_sbml_foreign_objective_witness :
  reconstruct Worlds.sbml_world 3 (Named "rich") None Examples.fraction
    Examples.max_fraction "positive" true true
  = Raise (KeyError "biomass_GmPos").
Proof.
  destruct (reconstruct_sbml_foreign_objective Worlds.sbml_world
              (Named "rich") Medium.RICH None Examples.fraction
              Examples.max_fraction "positive" true Examples.curated
              Examples.draft) as (e & H & He).
  - reflexivity.
  - left. reflexivity.
  - reflexivity.
  - reflexivity.
  - reflexivity.
  - apply (bool_decide_unpack _). vm_compute. exact I.
  - reflexivity.
  - rewrite H. f_equal.
    destruct (find_reactions (solver Worlds.sbml_world) Examples.curated
                None (sbml_objective Worlds.sbml_world)
                (Validation.min_frac
                   (Validation.check_fractions Examples.fraction
                      Examples.max_fraction))
                (Validation.max_frac
                   (Validation.check_fractions Examples.fraction
                      Examples.max_fraction)) 1 3 Examples.draft)
      as [[ids|e'] u1] eqn:F; [|vm_compute in F; discriminate].
    exact (He ids u1 eq_refl).
Defined.

End BagFacts.
